(** * A model of the RigWorkZ whitelist API (server.js)

    The handlers of server.js are embedded as functions over an explicit
    store.  JavaScript strings are modelled by [string], one [ascii] per
    UTF-16 code unit, restricted to the code units 0..255.  JavaScript
    numbers are modelled by [Z]; this is exact for the integers of
    magnitude below 2^53 that the handlers compute with.  Dates are
    modelled by their time value in milliseconds since the epoch. *)

From Stdlib Require Import ZArith String Ascii Bool Lia.
From Stdlib Require Import DecimalString DecimalZ DecimalPos.
From Stdlib Require Import List Permutation Sorted.
Import ListNotations.

Local Open Scope string_scope.
Local Open Scope list_scope.
Local Open Scope Z_scope.

(* ================================================================== *)
(** * JavaScript primitives used by the handlers *)

Module JS.

Definition code (c : ascii) : N := N_of_ascii c.

(** [lo <= c <= hi] on code units. *)
Definition in_range (lo hi c : ascii) : bool :=
  ((code lo <=? code c) && (code c <=? code hi))%N.

(** One code unit of [String.prototype.toLowerCase]: A-Z, and the
    Latin-1 capitals U+00C0..U+00DE except the sign U+00D7. *)
Definition lower_char (c : ascii) : ascii :=
  if in_range "A" "Z" c then ascii_of_N (code c + 32)
  else if in_range "192" "222" c && negb (Ascii.eqb c "215")
       then ascii_of_N (code c + 32)
       else c.

Fixpoint toLowerCase (s : string) : string :=
  match s with
  | EmptyString => EmptyString
  | String c s' => String (lower_char c) (toLowerCase s')
  end.

(** WhiteSpace and LineTerminator code units below 256. *)
Definition is_white_space (c : ascii) : bool :=
  match code c with
  | 9%N | 10%N | 11%N | 12%N | 13%N | 32%N | 160%N => true
  | _ => false
  end.

Fixpoint trimStart (s : string) : string :=
  match s with
  | EmptyString => EmptyString
  | String c s' => if is_white_space c then trimStart s' else s
  end.

Fixpoint trimEnd (s : string) : string :=
  match s with
  | EmptyString => EmptyString
  | String c s' =>
      match trimEnd s' with
      | EmptyString => if is_white_space c then EmptyString
                       else String c EmptyString
      | t => String c t
      end
  end.

Definition trim (s : string) : string := trimEnd (trimStart s).

(** The values a JSON request body can hold in one field. *)
Inductive value :=
| Undefined
| Null
| Bool (b : bool)
| Number (z : Z)
| Str (s : string)
| Object.

(** ToBoolean. *)
Definition truthy (v : value) : bool :=
  match v with
  | Undefined | Null => false
  | Bool b => b
  | Number z => negb (z =? 0)
  | Str s => negb (String.eqb s "")
  | Object => true
  end.

Definition typeof_is_string (v : value) : bool :=
  match v with Str _ => true | _ => false end.

(** Value of a digit in radix up to 36. *)
Definition digit_value (c : ascii) : option Z :=
  if in_range "0" "9" c then Some (Z.of_N (code c) - 48)
  else if in_range "a" "z" c then Some (Z.of_N (code c) - 87)
  else if in_range "A" "Z" c then Some (Z.of_N (code c) - 55)
  else None.

(** The longest prefix of radix-[r] digits, read as a number; [acc] is
    the value of the digits read so far, [None] when there is none. *)
Fixpoint parse_digits (r : Z) (s : string) (acc : option Z) : option Z :=
  match s with
  | EmptyString => acc
  | String c s' =>
      match digit_value c with
      | Some d =>
          if d <? r
          then parse_digits r s'
                 (Some (match acc with None => d | Some a => a * r + d end))
          else acc
      | None => acc
      end
  end.

(** [parseInt(x)] with no radix argument, for [x] absent ([undefined])
    or a string.  [None] is NaN.  The result is the integer that the
    numeral denotes; the code has the number nearest to it, which is
    that integer when it is safe ([isSafeInteger] below). *)
Definition parseInt (x : option string) : option Z :=
  let inputString := match x with None => "undefined" | Some s => s end in
  let S0 := trimStart inputString in
  let '(sign, S1) :=
    match S0 with
    | String "-" r => (-1, r)
    | String "+" r => (1, r)
    | _ => (1, S0)
    end in
  let '(R, S2) :=
    match S1 with
    | String "0" (String "x" r) => (16, r)
    | String "0" (String "X" r) => (16, r)
    | _ => (10, S1)
    end in
  match parse_digits R S2 None with
  | None => None
  | Some m => Some (sign * m)
  end.

(** [n || d] for a number [n]: NaN and 0 are falsy. *)
Definition or_default (n : option Z) (d : Z) : Z :=
  match n with
  | Some z => if z =? 0 then d else z
  | None => d
  end.

(** [Math.ceil(a / b)] for integers [a] and [b <> 0]. *)
Definition Math_ceil_div (a b : Z) : Z := - ((- a) / b).

(** [Number.MAX_SAFE_INTEGER], which is 2^53 - 1, and
    [Number.isSafeInteger] on integers.  A number of JavaScript holds
    every safe integer exactly; past them it rounds.  The integers of
    this model are the numbers of the code as long as they are safe,
    which the properties that compute with what a client sends take as
    a hypothesis. *)
Definition MAX_SAFE_INTEGER : Z := 9007199254740991.

Definition isSafeInteger (n : Z) : Prop :=
  - MAX_SAFE_INTEGER <= n <= MAX_SAFE_INTEGER.

End JS.

(* ================================================================== *)
(** * Regular expressions of the shape used by the validator *)

Module RegExp.

(** What matches one code unit: a literal or a class of ranges. *)
Inductive atom :=
| Lit (c : ascii)
| Class (ranges : list (ascii * ascii)).

(** An anchored pattern [^ a1{n1} a2{n2} ... $]. *)
Definition pattern := list (atom * nat).

Definition atom_matches (a : atom) (c : ascii) : bool :=
  match a with
  | Lit c' => Ascii.eqb c c'
  | Class ranges => existsb (fun r => JS.in_range (fst r) (snd r) c) ranges
  end.

(** Match [a{n}] at the head of [s]; the rest of [s] when it does. *)
Fixpoint consume (a : atom) (n : nat) (s : string) : option string :=
  match n with
  | O => Some s
  | S n' =>
      match s with
      | EmptyString => None
      | String c s' => if atom_matches a c then consume a n' s' else None
      end
  end.

(** [RegExp.prototype.test] for an anchored pattern without flags:
    [$] matches at the end of the input only. *)
Fixpoint test (p : pattern) (s : string) : bool :=
  match p with
  | [] => String.eqb s ""
  | (a, n) :: p' =>
      match consume a n s with
      | Some rest => test p' rest
      | None => false
      end
  end.

End RegExp.

(* ================================================================== *)
(** * The validator *)

(** [/^0x[a-fA-F0-9]{40}$/] *)
Definition address_pattern : RegExp.pattern :=
  [ (RegExp.Lit "0", 1%nat);
    (RegExp.Lit "x", 1%nat);
    (RegExp.Class [("a", "f"); ("A", "F"); ("0", "9")]%char, 40%nat) ].

Definition isValidEthereumAddress (address : string) : bool :=
  RegExp.test address_pattern address.

(* ================================================================== *)
(** * The Whitelist collection *)

Definition ObjectId := N.

(** A document of the collection, with the fields of [whitelistSchema]
    that the handlers read or write.  Dates are time values in
    milliseconds.  (The [createdAt]/[updatedAt] pair that
    [timestamps: true] adds is read by no handler and is left out.) *)
Record Registration := {
  _id : ObjectId;
  address : string;
  registeredAt : Z;
  ipAddress : option string;
  userAgent : option string
}.

(** The collection, in insertion order. *)
Definition collection := list Registration.

(** The result of [.select("address registeredAt")]: the two fields
    selected, and [_id], which a projection keeps by default. *)
Record Projection := {
  p_id : ObjectId;
  p_address : string;
  p_registeredAt : Z
}.

(** ** Store computations: state passing, with exceptions *)

Inductive outcome (A : Type) :=
| Return (a : A)
| Throw.
Arguments Return {A} a.
Arguments Throw {A}.

Definition M (A : Type) : Type := collection -> outcome A * collection.

Definition ret {A} (a : A) : M A := fun db => (Return a, db).

Definition bind {A B} (m : M A) (k : A -> M B) : M B :=
  fun db =>
    match m db with
    | (Return a, db') => k a db'
    | (Throw, db') => (Throw, db')
    end.

(** [try { m } catch (error) { h }] *)
Definition try_catch {A} (m : M A) (h : M A) : M A :=
  fun db =>
    match m db with
    | (Return a, db') => (Return a, db')
    | (Throw, db') => h db'
    end.

Notation "x <- m ;; k" := (bind m (fun x => k))
  (at level 61, m at next level, right associativity).

Module Schema.

(** The setters of the [address] path: [lowercase: true] and
    [trim: true].  Mongoose runs them when a document is built and
    when a query filter on the path is cast. *)
Definition set_address (v : string) : string :=
  JS.trim (JS.toLowerCase v).

End Schema.

(** The operations of the Mongoose model [Whitelist] that the handlers
    call, each by what it does to the collection. *)
Module Whitelist.

(** [new Whitelist({ address, ipAddress, userAgent })]: the setters
    run on [address], and [registeredAt] takes its default
    [Date.now]. *)
Definition new (oid : ObjectId) (now : Z) (addr : string)
           (ip ua : option string) : Registration :=
  {| _id := oid;
     address := Schema.set_address addr;
     registeredAt := now;
     ipAddress := ip;
     userAgent := ua |}.

(** The filter [{ address: addr }]. *)
Definition by_address (addr : string) (d : Registration) : bool :=
  String.eqb (address d) (Schema.set_address addr).

Definition findOne (addr : string) : M (option Registration) :=
  fun db => (Return (find (by_address addr) db), db).

(** [doc.save()] of a new document: the unique index on [address]
    rejects a duplicate key. *)
Definition save (doc : Registration) : M unit :=
  fun db =>
    if existsb (fun d => String.eqb (address d) (address doc)) db
    then (Throw, db)
    else (Return tt, db ++ [doc]).

(** [countDocuments()] *)
Definition countDocuments : M Z :=
  fun db => (Return (Z.of_nat (length db)), db).

(** [countDocuments({ registeredAt: { $gte: since } })] *)
Definition countDocuments_gte (since : Z) : M Z :=
  fun db =>
    (Return (Z.of_nat
               (length (filter (fun d => since <=? registeredAt d) db))),
     db).

(** Sort on [{ registeredAt: -1 }].  Documents with equal dates keep
    their insertion order. *)
Fixpoint insert_desc (d : Registration) (l : list Registration)
  : list Registration :=
  match l with
  | [] => [d]
  | x :: l' =>
      if registeredAt x <=? registeredAt d
      then d :: x :: l'
      else x :: insert_desc d l'
  end.

Fixpoint sort_desc (l : list Registration) : list Registration :=
  match l with
  | [] => []
  | d :: l' => insert_desc d (sort_desc l')
  end.

Definition select (d : Registration) : Projection :=
  {| p_id := _id d;
     p_address := address d;
     p_registeredAt := registeredAt d |}.

(** [find().sort({registeredAt: -1}).skip(skip).limit(limit)
    .select("address registeredAt")].  The server rejects a negative
    skip; a limit of 0 is no limit, and a negative limit is the limit
    of its absolute value. *)
Definition find_sort_skip_limit_select (skip limit : Z)
  : M (list Projection) :=
  fun db =>
    if skip <? 0 then (Throw, db)
    else
      let rest := skipn (Z.to_nat skip) (sort_desc db) in
      let page := if limit =? 0 then rest
                  else firstn (Z.to_nat (Z.abs limit)) rest in
      (Return (map select page), db).

Fixpoint remove_first (p : Registration -> bool) (l : list Registration)
  : list Registration :=
  match l with
  | [] => []
  | x :: l' => if p x then l' else x :: remove_first p l'
  end.

(** [findOneAndDelete({ address: addr })] *)
Definition findOneAndDelete (addr : string) : M (option Registration) :=
  fun db =>
    (Return (find (by_address addr) db), remove_first (by_address addr) db).

End Whitelist.

(* ================================================================== *)
(** * Dates *)

Definition msPerDay : Z := 86400000.

(** The time zone of the host, as the Date methods use it.
    [LocalTZA_utc t] is the offset of local time from UTC, in
    milliseconds, in force at the instant [t] ([LocalTZA(t, true)]);
    [LocalTZA_local l] is the offset that belongs to the local time
    [l] ([LocalTZA(l, false)]), which for a local time that a change of
    offset skips or repeats is the offset before the change.  The
    offsets change with daylight saving.  Three facts about the zone
    are used: no offset exceeds a day, and the local midnight that
    starts the local day of an instant is not after the instant. *)
Record zone := {
  LocalTZA_utc : Z -> Z;
  LocalTZA_local : Z -> Z;
  LocalTZA_utc_bound :
    forall t, - msPerDay <= LocalTZA_utc t <= msPerDay;
  LocalTZA_local_bound :
    forall l, - msPerDay <= LocalTZA_local l <= msPerDay;
  midnight_not_ahead :
    forall t,
      let l := t + LocalTZA_utc t in
      (l - l mod msPerDay) - LocalTZA_local (l - l mod msPerDay) <= t
}.

(** [LocalTime(t)] and [UTC(l)]. *)
Definition LocalTime (tz : zone) (t : Z) : Z := t + LocalTZA_utc tz t.
Definition UTC (tz : zone) (l : Z) : Z := l - LocalTZA_local tz l.

(** [d.setHours(0, 0, 0, 0)]: the local day of [d], at 00:00:00.000,
    [UTC(MakeDate(Day(LocalTime(d)), 0))]. *)
Definition setHours_0 (tz : zone) (d : Z) : Z :=
  let t := LocalTime tz d in
  UTC tz (t - t mod msPerDay).

(** [d.setDate(d.getDate() - 7)]: the local time of [d] seven days of
    the local calendar earlier, at the same time of day. *)
Definition setDate_minus_7 (tz : zone) (d : Z) : Z :=
  let t := LocalTime tz d in
  UTC tz (t - 7 * msPerDay).

(** A zone of one offset, of at most a day. *)
Definition fixed_zone (offset : Z)
           (H : - msPerDay <= offset <= msPerDay) : zone.
Proof.
  refine {| LocalTZA_utc := fun _ => offset;
            LocalTZA_local := fun _ => offset;
            LocalTZA_utc_bound := fun _ => H;
            LocalTZA_local_bound := fun _ => H;
            midnight_not_ahead := _ |}.
  intros t l.
  pose proof (Z.mod_pos_bound l msPerDay eq_refl). unfold l in *. lia.
Defined.

Definition UTC_zone : zone.
Proof. refine (fixed_zone 0 _). unfold msPerDay. lia. Defined.

(** A zone that leaves daylight saving at the instant [T]: the offset
    is two hours before [T] and one hour from [T] on.  The local hour
    that is repeated takes the offset before the change. *)
Definition daylight_saving_ends (T : Z) : zone.
Proof.
  refine {| LocalTZA_utc := fun t => if t <? T then 7200000 else 3600000;
            LocalTZA_local :=
              fun l => if l <? T + 7200000 then 7200000 else 3600000;
            midnight_not_ahead := _ |}.
  - intros t. unfold msPerDay. destruct (t <? T); lia.
  - intros l. unfold msPerDay. destruct (l <? T + 7200000); lia.
  - intros t l.
    pose proof (Z.mod_pos_bound l msPerDay eq_refl) as Hm.
    unfold l in *. clear l.
    destruct (Z.ltb_spec t T);
      destruct (Z.ltb_spec
                  (t + 7200000 - (t + 7200000) mod msPerDay) (T + 7200000));
      destruct (Z.ltb_spec
                  (t + 3600000 - (t + 3600000) mod msPerDay) (T + 7200000));
      lia.
Defined.

(* ================================================================== *)
(** * Responses and handlers *)

Inductive response :=
| Created (address : string) (registeredAt : Z)
| InvalidInput
| InvalidFormat
| AlreadyRegistered (address : string) (registeredAt : Z)
| CheckResult (isRegistered : bool) (registration : option (string * Z))
| ListResult (count total page totalPages : Z)
             (registrations : list Projection)
| StatsResult (total today lastWeek : Z)
| Removed
| NotFound
| Internal.

Definition status (r : response) : Z :=
  match r with
  | Created _ _ => 201
  | InvalidInput | InvalidFormat => 400
  | AlreadyRegistered _ _ => 409
  | CheckResult _ _ | ListResult _ _ _ _ _ | StatsResult _ _ _ | Removed => 200
  | NotFound => 404
  | Internal => 500
  end.

Definition string_of (v : JS.value) : string :=
  match v with JS.Str s => s | _ => "" end.

Module Api.

(** [app.post("/api/whitelist/register")], on [req.body.address], the
    client's address [req.ip || req.connection.remoteAddress] and user
    agent, and the [_id] and the [Date.now()] that a new document
    gets. *)
Definition register (body_address : JS.value) (ip ua : option string)
           (oid : ObjectId) (now : Z) : M response :=
  try_catch
    (if negb (JS.truthy body_address)
        || negb (JS.typeof_is_string body_address)
     then ret InvalidInput
     else
       let address_ := string_of body_address in
       if negb (isValidEthereumAddress address_) then ret InvalidFormat
       else
         let normalizedAddress := JS.toLowerCase address_ in
         existing <- Whitelist.findOne normalizedAddress ;;
         match existing with
         | Some e => ret (AlreadyRegistered (address e) (registeredAt e))
         | None =>
             let registration :=
               Whitelist.new oid now normalizedAddress ip ua in
             _ <- Whitelist.save registration ;;
             totalCount <- Whitelist.countDocuments ;;
             ret (Created (address registration) (registeredAt registration))
         end)
    (ret Internal).

(** [app.get("/api/whitelist/check/:address")] *)
Definition check (address_ : string) : M response :=
  try_catch
    (if negb (JS.truthy (JS.Str address_)) then ret InvalidInput
     else if negb (isValidEthereumAddress address_) then ret InvalidFormat
     else
       let normalizedAddress := JS.toLowerCase address_ in
       registration <- Whitelist.findOne normalizedAddress ;;
       ret (CheckResult
              (match registration with Some _ => true | None => false end)
              (match registration with
               | Some r => Some (address r, registeredAt r)
               | None => None
               end)))
    (ret Internal).

(** The three numbers the list handler computes from the query. *)
Definition list_page (q_page : option string) : Z :=
  JS.or_default (JS.parseInt q_page) 1.
Definition list_limit (q_limit : option string) : Z :=
  JS.or_default (JS.parseInt q_limit) 50.
Definition list_skip (q_page q_limit : option string) : Z :=
  (list_page q_page - 1) * list_limit q_limit.

(** [app.get("/api/whitelist/list")], on [req.query.page] and
    [req.query.limit]. *)
Definition list (q_page q_limit : option string) : M response :=
  try_catch
    (let page := list_page q_page in
     let limit := list_limit q_limit in
     let skip := list_skip q_page q_limit in
     registrations <- Whitelist.find_sort_skip_limit_select skip limit ;;
     totalCount <- Whitelist.countDocuments ;;
     ret (ListResult (Z.of_nat (length registrations)) totalCount page
            (JS.Math_ceil_div totalCount limit) registrations))
    (ret Internal).

(** [app.get("/api/whitelist/stats")], on a host in the zone [tz];
    [now1] and [now2] are what the two [new Date()] read. *)
Definition stats (tz : zone) (now1 now2 : Z) : M response :=
  try_catch
    (total <- Whitelist.countDocuments ;;
     let today := setHours_0 tz now1 in
     todayCount <- Whitelist.countDocuments_gte today ;;
     let weekAgo := setDate_minus_7 tz now2 in
     weekCount <- Whitelist.countDocuments_gte weekAgo ;;
     ret (StatsResult total todayCount weekCount))
    (ret Internal).

(** [app.delete("/api/whitelist/:address")] *)
Definition remove (address_ : string) : M response :=
  try_catch
    (let normalizedAddress := JS.toLowerCase address_ in
     result <- Whitelist.findOneAndDelete normalizedAddress ;;
     match result with
     | Some _ => ret Removed
     | None => ret NotFound
     end)
    (ret Internal).

End Api.

(** ** Sequences of requests *)

Inductive request :=
| Register (body_address : JS.value) (ip ua : option string)
           (oid : ObjectId) (now : Z)
| Check (address_ : string)
| List (q_page q_limit : option string)
| Stats (tz : zone) (now1 now2 : Z)
| Remove (address_ : string).

Definition handle (r : request) : M response :=
  match r with
  | Register a ip ua oid now => Api.register a ip ua oid now
  | Check a => Api.check a
  | List p l => Api.list p l
  | Stats tz n1 n2 => Api.stats tz n1 n2
  | Remove a => Api.remove a
  end.

(** The response to a request.  Every handler catches what the store
    throws; an exception that left a handler would reach the error
    handler of the application, which answers 500. *)
Definition respond (r : request) (db : collection) : response * collection :=
  match handle r db with
  | (Return a, db') => (a, db')
  | (Throw, db') => (Internal, db')
  end.

(** The store after a sequence of requests, served one after another,
    starting from [db].  The stores [run rs []] are the reachable ones. *)
Fixpoint run (rs : list request) (db : collection) : collection :=
  match rs with
  | [] => db
  | r :: rs' => run rs' (snd (respond r db))
  end.

(* ================================================================== *)
(** * Notions used to state the properties *)

(** The pattern as the specification writes it:
    [^0x[0-9a-fA-F]{40}$]. *)
Definition spec_address_pattern : RegExp.pattern :=
  [ (RegExp.Lit "0", 1%nat);
    (RegExp.Lit "x", 1%nat);
    (RegExp.Class [("0", "9"); ("a", "f"); ("A", "F")]%char, 40%nat) ].

Definition hex_class : RegExp.atom :=
  RegExp.Class [("a", "f"); ("A", "F"); ("0", "9")]%char.

(** The 22 hexadecimal digits, written out. *)
Definition hex_digits : list ascii :=
  list_ascii_of_string "0123456789abcdefABCDEF".

Definition hex_digit (c : ascii) : Prop := In c hex_digits.

Definition hex_digitb (c : ascii) : bool := existsb (Ascii.eqb c) hex_digits.

Fixpoint all_chars (p : ascii -> bool) (s : string) : bool :=
  match s with
  | EmptyString => true
  | String c s' => p c && all_chars p s'
  end.

(** The decimal numeral of an integer, as a client writes it in a
    query string. *)
Definition decimal (n : Z) : string :=
  NilEmpty.string_of_int (Z.to_int n).

(** The page that the store returns for a non-negative [skip]. *)
Definition page_of (skip limit : Z) (db : collection) : list Projection :=
  let rest := skipn (Z.to_nat skip) (Whitelist.sort_desc db) in
  map Whitelist.select
    (if limit =? 0 then rest else firstn (Z.to_nat (Z.abs limit)) rest).

Definition registrations_of (r : response) : list Projection :=
  match r with
  | ListResult _ _ _ _ regs => regs
  | _ => []
  end.

(** [d1] was registered at the date of [d2] or later. *)
Definition not_older (d1 d2 : Registration) : Prop :=
  registeredAt d2 <= registeredAt d1.

(** The number of documents registered at [since] or later. *)
Definition count_since (since : Z) (db : collection) : Z :=
  Z.of_nat (length (filter (fun d => since <=? registeredAt d) db)).

(** Two stores that differ at most in the ipAddress and userAgent of
    their documents. *)
Definition same_public (db1 db2 : collection) : Prop :=
  map Whitelist.select db1 = map Whitelist.select db2.

(** A normalized address passes the validator and is in lower case. *)
Definition normalized (s : string) : Prop :=
  isValidEthereumAddress s = true /\ JS.toLowerCase s = s.

Definition well_formed (db : collection) : Prop :=
  NoDup (map address db) /\ Forall (fun d => normalized (address d)) db.

(** The documents stored under an address. *)
Definition at_address (n : string) (db : collection) : list Registration :=
  filter (fun d => String.eqb (address d) n) db.

(** A request that does not delete the address [n]. *)
Definition keeps (n : string) (r : request) : Prop :=
  match r with
  | Remove x => Schema.set_address x <> n
  | _ => True
  end.

(* ================================================================== *)
(** * Origins *)

(** [allowedOrigins] *)
Definition allowedOrigins : list string :=
  [ "http://localhost:5173";
    "http://localhost:3000";
    "https://rigworkz-app.web.app";
    "https://rigworkz-app.firebaseapp.com";
    "https://rigworkz.xyz";
    "https://www.rigworkz.xyz" ].

(** [Array.prototype.indexOf] on an array of strings, searching from
    index [i]: the first index of an element equal to [x], or -1. *)
Fixpoint indexOf_from (i : Z) (l : list string) (x : string) : Z :=
  match l with
  | [] => -1
  | y :: l' => if String.eqb y x then i else indexOf_from (i + 1) l' x
  end.

Definition indexOf (l : list string) (x : string) : Z := indexOf_from 0 l x.

(** What the [origin] option of [cors] passes to its callback:
    [callback(null, true)] or [callback(new Error(...))]. *)
Inductive cors_decision :=
| Allowed
| NotAllowedByCORS.

(** The [origin] function given to [cors], on the Origin header of the
    request ([None] when there is none). *)
Definition cors_origin (origin : option string) : cors_decision :=
  let o := match origin with None => JS.Undefined | Some s => JS.Str s end in
  if negb (JS.truthy o) then Allowed
  else if negb (indexOf allowedOrigins (string_of o) =? -1) then Allowed
  else NotAllowedByCORS.

(** ** Further notions *)

(** A string that does not go on with a decimal digit. *)
Definition no_digit_ahead (t : string) : bool :=
  match t with
  | EmptyString => true
  | String c _ => negb (JS.in_range "0" "9" c)
  end.



(** Newest first, on the rows of a page. *)
Definition row_not_older (p q : Projection) : Prop :=
  p_registeredAt q <= p_registeredAt p.

(** ** Tactics *)

(** All 256 code units, by computation. *)
Ltac each_ascii c :=
  destruct c as [[] [] [] [] [] [] [] []]; vm_compute; try reflexivity.

(** One decimal digit read by [JS.parse_digits], given the lemma for a
    step. *)
Ltac digit_step_with step :=
  erewrite step; [| vm_compute; reflexivity | reflexivity].

(* ================================================================== *)
(** * Proofs *)

(* ================================================================== *)
(** * Facts on code units and strings *)

Lemma hex_class_digitb (c : ascii) :
  RegExp.atom_matches hex_class c = hex_digitb c.
Proof. each_ascii c. Qed.

Lemma hex_digitb_spec (c : ascii) : hex_digitb c = true <-> hex_digit c.
Proof.
  unfold hex_digitb, hex_digit. rewrite existsb_exists. split.
  - intros [x [Hin Heq]]. apply Ascii.eqb_eq in Heq. now subst.
  - intros Hin. exists c. split; [assumption | apply Ascii.eqb_refl].
Qed.

Lemma lower_char_idem (c : ascii) :
  JS.lower_char (JS.lower_char c) = JS.lower_char c.
Proof. each_ascii c. Qed.

Lemma lower_char_hex (c : ascii) :
  hex_digitb (JS.lower_char c) = hex_digitb c.
Proof. each_ascii c. Qed.

Lemma lower_char_white_space (c : ascii) :
  JS.is_white_space (JS.lower_char c) = JS.is_white_space c.
Proof. each_ascii c. Qed.

Lemma hex_not_white_space (c : ascii) :
  hex_digitb c = true -> JS.is_white_space c = false.
Proof. each_ascii c; discriminate. Qed.

Lemma toLowerCase_idem (s : string) :
  JS.toLowerCase (JS.toLowerCase s) = JS.toLowerCase s.
Proof.
  induction s as [|c s IH]; simpl; [reflexivity|].
  now rewrite lower_char_idem, IH.
Qed.

Lemma toLowerCase_length (s : string) :
  String.length (JS.toLowerCase s) = String.length s.
Proof. induction s as [|c s IH]; simpl; congruence. Qed.

(** ** What the anchored patterns accept *)

Lemma all_chars_spec (p : ascii -> bool) (s : string) :
  all_chars p s = true <->
  forall c, In c (list_ascii_of_string s) -> p c = true.
Proof.
  induction s as [|c s IH]; simpl.
  - split; [intros _ c []| reflexivity].
  - rewrite andb_true_iff, IH. split.
    + intros [Hc Hs] x [<-|Hx]; auto.
    + intros H. split; [apply H; now left | intros x Hx; apply H; now right].
Qed.

Lemma consume_spec (a : RegExp.atom) (n : nat) (s rest : string) :
  RegExp.consume a n s = Some rest <->
  exists h, s = (h ++ rest)%string /\ String.length h = n /\
            all_chars (RegExp.atom_matches a) h = true.
Proof.
  revert s. induction n as [|n IH]; intros s; simpl.
  - split.
    + intros [= ->]. exists EmptyString. auto.
    + intros [h [-> [Hlen _]]]. destruct h; [reflexivity | discriminate].
  - destruct s as [|c s].
    + split; [discriminate|].
      intros [h [Heq [Hlen _]]]. destruct h; discriminate.
    + destruct (RegExp.atom_matches a c) eqn:Hc.
      * rewrite IH. split.
        -- intros [h [-> [Hlen Hall]]]. exists (String c h). simpl.
           rewrite Hc, Hall, Hlen. auto.
        -- intros [h [Heq [Hlen Hall]]]. destruct h as [|c' h]; [discriminate|].
           simpl in *. injection Heq as <- ->. injection Hlen as Hlen.
           apply andb_true_iff in Hall as [_ Hall]. eauto.
      * split; [discriminate|].
        intros [h [Heq [Hlen Hall]]]. destruct h as [|c' h]; [discriminate|].
        simpl in *. injection Heq as <- ->. rewrite Hc in Hall. discriminate.
Qed.

Lemma append_empty_r (s : string) : (s ++ "")%string = s.
Proof. induction s; simpl; congruence. Qed.

Lemma all_chars_ext (p q : ascii -> bool) (s : string) :
  (forall c, p c = q c) -> all_chars p s = all_chars q s.
Proof. intros E. induction s; simpl; [reflexivity | now rewrite E, IHs]. Qed.

Lemma consume_all (a : RegExp.atom) (n : nat) (s : string) :
  RegExp.consume a n s = Some EmptyString <->
  String.length s = n /\ all_chars (RegExp.atom_matches a) s = true.
Proof.
  rewrite consume_spec. split.
  - intros [h [-> [Hlen Hall]]]. now rewrite append_empty_r.
  - intros [Hlen Hall]. exists s. now rewrite append_empty_r.
Qed.

(** A pattern of two literals and a counted class. *)
Lemma test_lit_lit_class (c0 c1 : ascii) (a : RegExp.atom) (n : nat)
      (s : string) :
  RegExp.test [(RegExp.Lit c0, 1%nat); (RegExp.Lit c1, 1%nat); (a, n)] s
  = true <->
  exists h, s = String c0 (String c1 h) /\ String.length h = n /\
            all_chars (RegExp.atom_matches a) h = true.
Proof.
  destruct s as [|d0 [|d1 h]].
  - simpl. split; [discriminate | intros [h [[=] _]]].
  - simpl. split; [destruct (Ascii.eqb d0 c0); discriminate
                  | intros [h [[=] _]]].
  - cbn [RegExp.test RegExp.consume RegExp.atom_matches].
    destruct (Ascii.eqb_spec d0 c0) as [->|N0];
      [|split; [discriminate | intros [h' [[= ? ? ?] _]]; contradiction]].
    destruct (Ascii.eqb_spec d1 c1) as [->|N1];
      [|split; [discriminate | intros [h' [[= ? ?] _]]; contradiction]].
    destruct (RegExp.consume a n h) as [rest|] eqn:Hc.
    + rewrite String.eqb_eq. split.
      * intros ->. apply consume_all in Hc. eauto.
      * intros [h' [[= <-] Hh]]. apply consume_all in Hh. congruence.
    + split; [discriminate|].
      intros [h' [[= <-] Hh]]. apply consume_all in Hh. congruence.
Qed.

(** The validator accepts ["0x"] followed by 40 hexadecimal digits. *)
Lemma isValidEthereumAddress_shape (s : string) :
  isValidEthereumAddress s = true <->
  exists h, s = String "0" (String "x" h) /\ String.length h = 40%nat /\
            all_chars hex_digitb h = true.
Proof.
  unfold isValidEthereumAddress, address_pattern. fold hex_class.
  rewrite test_lit_lit_class.
  split; intros [h [-> [Hlen Hall]]]; exists h; repeat split; trivial.
  - now rewrite <- (all_chars_ext _ _ h hex_class_digitb).
  - now rewrite (all_chars_ext _ _ h hex_class_digitb).
Qed.

Lemma isValidEthereumAddress_0x (h : string) :
  isValidEthereumAddress ("0x" ++ h) =
  Nat.eqb (String.length h) 40 && all_chars hex_digitb h.
Proof.
  apply eq_true_iff_eq.
  rewrite isValidEthereumAddress_shape, andb_true_iff, Nat.eqb_eq.
  simpl. split.
  - intros [h' [[= <-] H]]. exact H.
  - intros H. eauto.
Qed.

Lemma all_chars_toLowerCase_hex (h : string) :
  all_chars hex_digitb (JS.toLowerCase h) = all_chars hex_digitb h.
Proof.
  induction h as [|c h IH]; simpl; [reflexivity|].
  now rewrite lower_char_hex, IH.
Qed.

Lemma isValidEthereumAddress_0x_lower (h : string) :
  isValidEthereumAddress ("0x" ++ JS.toLowerCase h) =
  isValidEthereumAddress ("0x" ++ h).
Proof.
  now rewrite !isValidEthereumAddress_0x, toLowerCase_length,
    all_chars_toLowerCase_hex.
Qed.

Lemma valid_toLowerCase (s : string) :
  isValidEthereumAddress s = true ->
  isValidEthereumAddress (JS.toLowerCase s) = true.
Proof.
  intros H. pose proof H as H'.
  apply isValidEthereumAddress_shape in H' as [h [-> _]].
  change (isValidEthereumAddress ("0x" ++ JS.toLowerCase h) = true).
  now rewrite isValidEthereumAddress_0x_lower.
Qed.

Lemma valid_no_white_space (s : string) :
  isValidEthereumAddress s = true ->
  all_chars (fun c => negb (JS.is_white_space c)) s = true.
Proof.
  intros H. apply isValidEthereumAddress_shape in H as [h [-> [_ Hall]]].
  simpl. induction h as [|c h IH]; simpl in *; [reflexivity|].
  apply andb_true_iff in Hall as [Hc Hh].
  now rewrite (hex_not_white_space c Hc), IH.
Qed.

Lemma valid_prefix (s : string) :
  isValidEthereumAddress s = true -> substring 0 2 s = "0x".
Proof.
  intros H. apply isValidEthereumAddress_shape in H as [h [-> _]].
  simpl. now destruct h.
Qed.

(** C2.  The validator accepts exactly the strings that the pattern
    [^0x[0-9a-fA-F]{40}$] of the specification matches in full: the two
    characters [0x] followed by exactly 40 hexadecimal digits and
    nothing else.  An accepted string holds no white space, and
    changing the letter case of the 40 characters after the prefix
    never changes the verdict. *)
Theorem isValidEthereumAddress_full_match :
  (forall s, isValidEthereumAddress s = RegExp.test spec_address_pattern s) /\
  (forall s, isValidEthereumAddress s = true <->
     exists h, s = ("0x" ++ h)%string /\ String.length h = 40%nat /\
               forall c, In c (list_ascii_of_string h) -> hex_digit c) /\
  (forall s c, isValidEthereumAddress s = true ->
     In c (list_ascii_of_string s) -> JS.is_white_space c = false) /\
  (forall h h', JS.toLowerCase h = JS.toLowerCase h' ->
     isValidEthereumAddress ("0x" ++ h) = isValidEthereumAddress ("0x" ++ h')).
Proof.
  split; [|split; [|split]].
  - intros s. apply eq_true_iff_eq.
    unfold isValidEthereumAddress, address_pattern, spec_address_pattern.
    rewrite !test_lit_lit_class.
    split; intros [h [-> [Hlen Hall]]]; exists h; repeat split; trivial;
      erewrite all_chars_ext; [exact Hall | | exact Hall |];
      intros c; each_ascii c.
  - intros s. rewrite isValidEthereumAddress_shape.
    split; intros [h [-> [Hlen Hall]]]; exists h; repeat split; trivial.
    + intros c Hc. apply hex_digitb_spec.
      exact (proj1 (all_chars_spec _ _) Hall c Hc).
    + apply all_chars_spec. intros c Hc. apply hex_digitb_spec. auto.
  - intros s c Hs Hc. apply valid_no_white_space in Hs.
    apply (proj1 (all_chars_spec _ _) Hs) in Hc.
    now apply negb_true_iff in Hc.
  - intros h h' E.
    now rewrite <- (isValidEthereumAddress_0x_lower h),
      <- (isValidEthereumAddress_0x_lower h'), E.
Qed.

Lemma isValidEthereumAddress_full_match_witness :
  isValidEthereumAddress "0xABCDEF0123456789abcdef0123456789ABCDEF01" = true /\
  JS.is_white_space "A" = false /\
  isValidEthereumAddress ("0x" ++ "ABCDEF0123456789abcdef0123456789ABCDEF01")
  = isValidEthereumAddress ("0x" ++ "abcdef0123456789ABCDEF0123456789abcdef01").
Proof.
  destruct isValidEthereumAddress_full_match as [_ [H2 [H3 H4]]].
  split; [|split].
  - apply H2. exists "ABCDEF0123456789abcdef0123456789ABCDEF01".
    split; [reflexivity | split; [reflexivity|]].
    intros c Hc. apply hex_digitb_spec.
    revert c Hc. apply all_chars_spec. reflexivity.
  - apply (H3 "0xABCDEF0123456789abcdef0123456789ABCDEF01").
    + reflexivity.
    + simpl. tauto.
  - apply H4. reflexivity.
Defined.

(** ** Trimming *)

Lemma trimStart_id (s : string) :
  all_chars (fun c => negb (JS.is_white_space c)) s = true ->
  JS.trimStart s = s.
Proof.
  destruct s as [|c s]; simpl; [reflexivity|].
  intros H. apply andb_true_iff in H as [Hc _].
  apply negb_true_iff in Hc. now rewrite Hc.
Qed.

Lemma trimEnd_id (s : string) :
  all_chars (fun c => negb (JS.is_white_space c)) s = true ->
  JS.trimEnd s = s.
Proof.
  induction s as [|c s IH]; simpl; [reflexivity|].
  intros H. apply andb_true_iff in H as [Hc Hs].
  apply negb_true_iff in Hc. rewrite (IH Hs), Hc. now destruct s.
Qed.

Lemma set_address_valid (s : string) :
  isValidEthereumAddress s = true ->
  Schema.set_address s = JS.toLowerCase s.
Proof.
  intros H. apply valid_toLowerCase, valid_no_white_space in H.
  unfold Schema.set_address, JS.trim.
  now rewrite (trimStart_id _ H), (trimEnd_id _ H).
Qed.

Lemma set_address_toLowerCase (s : string) :
  Schema.set_address (JS.toLowerCase s) = Schema.set_address s.
Proof. unfold Schema.set_address. now rewrite toLowerCase_idem. Qed.

(** ** The handlers, one request at a time *)

Lemma find_existsb {A} (p : A -> bool) (l : list A) :
  existsb p l = match find p l with Some _ => true | None => false end.
Proof. induction l as [|x l IH]; simpl; [reflexivity|]. now destruct (p x). Qed.

Lemma respond_register (a : JS.value) (ip ua : option string)
      (oid : ObjectId) (now : Z) (db : collection) :
  respond (Register a ip ua oid now) db =
  if negb (JS.truthy a) || negb (JS.typeof_is_string a)
  then (InvalidInput, db)
  else if negb (isValidEthereumAddress (string_of a)) then (InvalidFormat, db)
  else
    let n := JS.toLowerCase (string_of a) in
    match find (Whitelist.by_address n) db with
    | Some e => (AlreadyRegistered (address e) (registeredAt e), db)
    | None =>
        (Created (Schema.set_address n) now,
         (db ++ [Whitelist.new oid now n ip ua]))
    end.
Proof.
  unfold respond, handle, Api.register, try_catch.
  destruct (negb (JS.truthy a) || negb (JS.typeof_is_string a));
    [reflexivity|].
  destruct (negb (isValidEthereumAddress (string_of a))); [reflexivity|].
  cbv zeta. unfold bind, Whitelist.findOne.
  destruct (find _ db) as [e|] eqn:Hf; [reflexivity|].
  unfold Whitelist.save.
  change (fun d => String.eqb (address d)
                     (address (Whitelist.new oid now
                                 (JS.toLowerCase (string_of a)) ip ua)))
    with (Whitelist.by_address (JS.toLowerCase (string_of a))).
  now rewrite find_existsb, Hf.
Qed.

Lemma respond_check (s : string) (db : collection) :
  respond (Check s) db =
  (if negb (JS.truthy (JS.Str s)) then InvalidInput
   else if negb (isValidEthereumAddress s) then InvalidFormat
   else match find (Whitelist.by_address (JS.toLowerCase s)) db with
        | Some r => CheckResult true (Some (address r, registeredAt r))
        | None => CheckResult false None
        end,
   db).
Proof.
  unfold respond, handle, Api.check, try_catch.
  destruct (negb (JS.truthy (JS.Str s))); [reflexivity|].
  destruct (negb (isValidEthereumAddress s)); [reflexivity|].
  cbv zeta. unfold bind, Whitelist.findOne, ret.
  now destruct (find _ db).
Qed.

Lemma respond_list (qp ql : option string) (db : collection) :
  respond (List qp ql) db =
  (if Api.list_skip qp ql <? 0 then Internal
   else
     let regs := page_of (Api.list_skip qp ql) (Api.list_limit ql) db in
     ListResult (Z.of_nat (length regs)) (Z.of_nat (length db))
       (Api.list_page qp)
       (JS.Math_ceil_div (Z.of_nat (length db)) (Api.list_limit ql)) regs,
   db).
Proof.
  unfold respond, handle, Api.list, try_catch. cbv zeta.
  unfold bind, Whitelist.find_sort_skip_limit_select.
  destruct (Api.list_skip qp ql <? 0); reflexivity.
Qed.

Lemma respond_stats (tz : zone) (now1 now2 : Z) (db : collection) :
  respond (Stats tz now1 now2) db =
  (StatsResult (Z.of_nat (length db))
     (count_since (setHours_0 tz now1) db)
     (count_since (setDate_minus_7 tz now2) db),
   db).
Proof. reflexivity. Qed.

Lemma respond_remove (s : string) (db : collection) :
  respond (Remove s) db =
  (match find (Whitelist.by_address s) db with
   | Some _ => Removed
   | None => NotFound
   end,
   Whitelist.remove_first (Whitelist.by_address s) db).
Proof.
  unfold respond, handle, Api.remove, try_catch. cbv zeta.
  unfold bind, Whitelist.findOneAndDelete.
  assert (Whitelist.by_address (JS.toLowerCase s) = Whitelist.by_address s)
    as ->.
  { unfold Whitelist.by_address. now rewrite set_address_toLowerCase. }
  now destruct (find _ db).
Qed.

Lemma parse_digits_step (c : ascii) (d : Z) (s : string) (acc : option Z) :
  JS.digit_value c = Some d -> (d <? 10) = true ->
  JS.parse_digits 10 (String c s) acc =
  JS.parse_digits 10 s
    (Some (match acc with None => d | Some a => a * 10 + d end)).
Proof. intros Hd Hlt. simpl. now rewrite Hd, Hlt. Qed.

Lemma parse_digits_acc (u : Decimal.uint) (acc : positive) :
  JS.parse_digits 10 (NilEmpty.string_of_uint u) (Some (Z.pos acc)) =
  Some (Z.pos (Pos.of_uint_acc u acc)).
Proof.
  revert acc.
  induction u as [|u IH|u IH|u IH|u IH|u IH|u IH|u IH|u IH|u IH|u IH];
    intros acc; cbn [NilEmpty.string_of_uint Pos.of_uint_acc];
    [reflexivity
    | digit_step_with parse_digits_step; rewrite <- IH; do 2 f_equal; lia ..].
Qed.

Lemma parse_digits_zero (u : Decimal.uint) :
  JS.parse_digits 10 (NilEmpty.string_of_uint u) (Some 0) =
  Some (Z.of_N (Pos.of_uint u)).
Proof.
  induction u as [|u IH|u IH|u IH|u IH|u IH|u IH|u IH|u IH|u IH|u IH];
    cbn [NilEmpty.string_of_uint Pos.of_uint];
    [reflexivity
    | digit_step_with parse_digits_step; exact IH
    | digit_step_with parse_digits_step; cbn [Z.mul Z.add];
      apply parse_digits_acc ..].
Qed.

Lemma parse_digits_uint (u : Decimal.uint) :
  u <> Decimal.Nil ->
  JS.parse_digits 10 (NilEmpty.string_of_uint u) None =
  Some (Z.of_N (Pos.of_uint u)).
Proof.
  destruct u; intros Hu; try contradiction;
    cbn [NilEmpty.string_of_uint Pos.of_uint];
    [digit_step_with parse_digits_step; apply parse_digits_zero
    | digit_step_with parse_digits_step; apply parse_digits_acc ..].
Qed.

(** A numeral of digits has no white space, sign or [0x] in front. *)
Lemma parseInt_uint (u : Decimal.uint) :
  u <> Decimal.Nil ->
  JS.parseInt (Some (NilEmpty.string_of_uint u)) =
  Some (Z.of_N (Pos.of_uint u)) /\
  JS.parseInt (Some (String "-" (NilEmpty.string_of_uint u))) =
  Some (- Z.of_N (Pos.of_uint u)).
Proof.
  intros Hu. pose proof (parse_digits_uint u Hu) as H.
  unfold JS.parseInt.
  destruct u as [|u|u|u|u|u|u|u|u|u|u]; try contradiction;
    cbn [NilEmpty.string_of_uint] in *.
  all: try (destruct u; cbn [NilEmpty.string_of_uint] in * ).
  all: change (JS.trimStart (String ?c ?s)) with (String c s).
  all: cbv beta iota zeta; rewrite H; split; f_equal; lia.
Qed.

Lemma parseInt_decimal (n : Z) : JS.parseInt (Some (decimal n)) = Some n.
Proof.
  destruct n as [|p|p]; [reflexivity | |]; unfold decimal;
    cbn [Z.to_int NilEmpty.string_of_int];
    destruct (parseInt_uint (Pos.to_uint p) (Unsigned.to_uint_nonnil p))
      as [Hpos Hneg];
    rewrite Unsigned.of_to in *; assumption.
Qed.

(** ** Numerals with something around them *)

Lemma trimStart_white_space (w s : string) :
  all_chars JS.is_white_space w = true ->
  JS.trimStart (w ++ s)%string = JS.trimStart s.
Proof.
  induction w as [|c w IH]; simpl; [reflexivity|].
  intros H. apply andb_true_iff in H as [Hc Hw]. now rewrite Hc, IH.
Qed.

Lemma parseInt_white_space (w s : string) :
  all_chars JS.is_white_space w = true ->
  JS.parseInt (Some (w ++ s)%string) = JS.parseInt (Some s).
Proof.
  intros H. unfold JS.parseInt. now rewrite (trimStart_white_space w s H).
Qed.

Lemma parse_digits_stop (t : string) (acc : option Z) :
  no_digit_ahead t = true -> JS.parse_digits 10 t acc = acc.
Proof.
  destruct t as [|c t]; [reflexivity|].
  destruct c as [[] [] [] [] [] [] [] []]; intros H;
    try discriminate H; reflexivity.
Qed.

Lemma parse_digits_app_uint (u : Decimal.uint) (t : string)
      (acc : option Z) :
  JS.parse_digits 10 (NilEmpty.string_of_uint u ++ t)%string acc =
  JS.parse_digits 10 t (JS.parse_digits 10 (NilEmpty.string_of_uint u) acc).
Proof.
  revert acc.
  induction u as [|u IH|u IH|u IH|u IH|u IH|u IH|u IH|u IH|u IH|u IH];
    intros acc; cbn [NilEmpty.string_of_uint append];
    [reflexivity
    | digit_step_with parse_digits_step; rewrite IH;
      symmetry; digit_step_with parse_digits_step; reflexivity ..].
Qed.

Lemma nzhead_head (d : Decimal.uint) :
  match Decimal.nzhead d with Decimal.D0 _ => False | _ => True end.
Proof. induction d; simpl; auto. Qed.

(** The numeral of a positive number starts with a digit that is not 0. *)
Lemma to_uint_head (p : positive) :
  match Pos.to_uint p with
  | Decimal.Nil | Decimal.D0 _ => False
  | _ => True
  end.
Proof.
  pose proof (Unsigned.to_of (Pos.to_uint p)) as H.
  rewrite Unsigned.of_to in H. cbn [N.to_uint] in H.
  pose proof (Unsigned.to_uint_nonzero p) as Hnz.
  pose proof (nzhead_head (Pos.to_uint p)) as Hh.
  unfold Decimal.unorm in H.
  destruct (Decimal.nzhead (Pos.to_uint p)); rewrite H in *; auto.
Qed.

Lemma parseInt_uint_suffix (u : Decimal.uint) (t : string) :
  match u with Decimal.Nil | Decimal.D0 _ => False | _ => True end ->
  no_digit_ahead t = true ->
  JS.parseInt (Some (NilEmpty.string_of_uint u ++ t)%string) =
  Some (Z.of_N (Pos.of_uint u)) /\
  JS.parseInt (Some (String "-" (NilEmpty.string_of_uint u ++ t)%string)) =
  Some (- Z.of_N (Pos.of_uint u)).
Proof.
  intros Hu Ht.
  assert (JS.parse_digits 10 (NilEmpty.string_of_uint u ++ t)%string None =
          Some (Z.of_N (Pos.of_uint u))) as H.
  { rewrite parse_digits_app_uint, parse_digits_stop by exact Ht.
    apply parse_digits_uint. now destruct u. }
  unfold JS.parseInt.
  destruct u as [|u|u|u|u|u|u|u|u|u|u]; try contradiction;
    cbn [NilEmpty.string_of_uint append] in *.
  all: change (JS.trimStart (String ?c ?s)) with (String c s).
  all: cbv beta iota zeta; rewrite H; split; f_equal; lia.
Qed.

Lemma parseInt_decimal_suffix (n : Z) (t : string) :
  n <> 0 -> no_digit_ahead t = true ->
  JS.parseInt (Some (decimal n ++ t)%string) = Some n.
Proof.
  intros Hn Ht. destruct n as [|p|p]; [contradiction | |];
    unfold decimal; cbn [Z.to_int NilEmpty.string_of_int append];
    destruct (parseInt_uint_suffix (Pos.to_uint p) t (to_uint_head p) Ht)
      as [Hpos Hneg];
    rewrite Unsigned.of_to in *; assumption.
Qed.

(** A string that, after white space, starts neither with a decimal
    digit nor with a sign. *)
Lemma parseInt_no_numeral (s : string) :
  match JS.trimStart s with
  | EmptyString => True
  | String c _ =>
      JS.in_range "0" "9" c = false /\ c <> "-"%char /\ c <> "+"%char
  end ->
  JS.parseInt (Some s) = None.
Proof.
  unfold JS.parseInt. destruct (JS.trimStart s) as [|c r]; [reflexivity|].
  destruct c as [[] [] [] [] [] [] [] []]; intros [Hd [Hm Hp]];
    try discriminate Hd; try (exfalso; apply Hm; reflexivity);
    try (exfalso; apply Hp; reflexivity); reflexivity.
Qed.


Lemma or_default_pass (q : option string) (d n : Z) :
  n <> 0 -> JS.parseInt q = Some n -> JS.or_default (JS.parseInt q) d = n.
Proof. intros Hn ->. simpl. apply Z.eqb_neq in Hn. now rewrite Hn. Qed.

(** The scenario of the specification: register, register again in
    another letter case, check, delete, check again. *)
Example scenario :
  let A := "0xABCDEF0123456789ABCDEF0123456789ABCDEF01" in
  let a := "0xabcdef0123456789abcdef0123456789abcdef01" in
  let r1 := respond (Register (JS.Str A) None None 1%N 1000) [] in
  let r2 := respond (Register (JS.Str a) None None 2%N 2000) (snd r1) in
  let r3 := respond (Check a) (snd r2) in
  let r4 := respond (Remove a) (snd r3) in
  let r5 := respond (Check a) (snd r4) in
  fst r1 = Created a 1000 /\ status (fst r1) = 201 /\
  fst r2 = AlreadyRegistered a 1000 /\ status (fst r2) = 409 /\
  fst r3 = CheckResult true (Some (a, 1000)) /\
  fst r4 = Removed /\ status (fst r4) = 200 /\
  fst r5 = CheckResult false None /\ snd r5 = [].
Proof. repeat split. Qed.

(** ** Reads *)

(** C8.  The check, list and stats requests leave the store as it was,
    whatever the store and their inputs: every document, with every
    field, is the same after as before. *)
Theorem reads_leave_store_unchanged :
  forall (db : collection),
    (forall s, snd (respond (Check s) db) = db) /\
    (forall qp ql, snd (respond (List qp ql) db) = db) /\
    (forall tz now1 now2, snd (respond (Stats tz now1 now2) db) = db).
Proof.
  intros db. split; [|split]; intros.
  - now rewrite respond_check.
  - now rewrite respond_list.
  - now rewrite respond_stats.
Qed.

(** ** Statistics *)

Lemma filter_length_mono {A} (p q : A -> bool) (l : list A) :
  (forall x, p x = true -> q x = true) ->
  (length (filter p l) <= length (filter q l))%nat.
Proof.
  intros Hpq. induction l as [|x l IH]; simpl; [lia|].
  destruct (p x) eqn:Hp.
  - rewrite (Hpq x Hp). simpl. lia.
  - destruct (q x); simpl; lia.
Qed.

Lemma count_since_mono (t1 t2 : Z) (db : collection) :
  t1 <= t2 -> count_since t2 db <= count_since t1 db.
Proof.
  intros H. unfold count_since. apply inj_le, filter_length_mono.
  intros x Hx. apply Z.leb_le in Hx. apply Z.leb_le. lia.
Qed.

Lemma count_since_bounds (t : Z) (db : collection) :
  0 <= count_since t db <= Z.of_nat (length db).
Proof.
  unfold count_since. split; [lia|]. apply inj_le, filter_length_le.
Qed.

Lemma floor_day (l : Z) :
  (l - l mod 86400000) mod 86400000 = 0 /\
  l - l mod 86400000 <= l < l - l mod 86400000 + 86400000.
Proof.
  pose proof (Z.mod_pos_bound l 86400000 eq_refl) as Hm.
  split; [|lia].
  rewrite Zminus_mod_idemp_r, Z.sub_diag. reflexivity.
Qed.

Lemma setHours_0_bounds (tz : zone) (d : Z) :
  d - 3 * msPerDay < setHours_0 tz d <= d.
Proof.
  unfold setHours_0, UTC, LocalTime.
  pose proof (midnight_not_ahead tz d) as Hup. cbv zeta in Hup.
  pose proof (LocalTZA_utc_bound tz d) as Hu.
  pose proof (LocalTZA_local_bound tz
                (d + LocalTZA_utc tz d
                 - (d + LocalTZA_utc tz d) mod msPerDay)) as Hl.
  pose proof (Z.mod_pos_bound (d + LocalTZA_utc tz d) msPerDay eq_refl).
  lia.
Qed.

Lemma setDate_minus_7_bounds (tz : zone) (d : Z) :
  d - 9 * msPerDay <= setDate_minus_7 tz d <= d - 5 * msPerDay.
Proof.
  unfold setDate_minus_7, UTC, LocalTime.
  pose proof (LocalTZA_utc_bound tz d) as Hu.
  pose proof (LocalTZA_local_bound tz
                (d + LocalTZA_utc tz d - 7 * msPerDay)) as Hl.
  lia.
Qed.

(** C6.  For every store, every zone of the host, daylight saving
    included, and every current time, read twice by the handler less
    than two days apart, the stats request answers with the number of
    all documents, the number registered at or after the local
    midnight that starts today, and the number registered at or after
    the local time of now seven calendar days earlier; and
    total >= lastWeek >= today >= 0. *)
Theorem stats_counts_ordered :
  forall (tz : zone) (now1 now2 : Z) (db : collection),
    now2 <= now1 + 2 * 86400000 ->
    exists total today lastWeek midnight weekAgo,
      respond (Stats tz now1 now2) db
      = (StatsResult total today lastWeek, db) /\
      total = Z.of_nat (length db) /\
      midnight mod 86400000 = 0 /\
      midnight <= now1 + LocalTZA_utc tz now1 < midnight + 86400000 /\
      today = count_since (midnight - LocalTZA_local tz midnight) db /\
      weekAgo = now2 + LocalTZA_utc tz now2 - 7 * 86400000 /\
      lastWeek = count_since (weekAgo - LocalTZA_local tz weekAgo) db /\
      total >= lastWeek /\ lastWeek >= today /\ today >= 0.
Proof.
  intros tz now1 now2 db Hnow. rewrite respond_stats.
  exists (Z.of_nat (length db)),
         (count_since (setHours_0 tz now1) db),
         (count_since (setDate_minus_7 tz now2) db),
         (now1 + LocalTZA_utc tz now1
          - (now1 + LocalTZA_utc tz now1) mod 86400000),
         (now2 + LocalTZA_utc tz now2 - 7 * 86400000).
  destruct (floor_day (now1 + LocalTZA_utc tz now1)) as [Hmod Hday].
  split; [reflexivity|]. split; [reflexivity|]. split; [exact Hmod|].
  split; [exact Hday|]. split; [reflexivity|]. split; [reflexivity|].
  split; [reflexivity|].
  pose proof (setHours_0_bounds tz now1).
  pose proof (setDate_minus_7_bounds tz now2).
  pose proof (count_since_bounds (setHours_0 tz now1) db).
  pose proof (count_since_bounds (setDate_minus_7 tz now2) db).
  pose proof (count_since_mono (setDate_minus_7 tz now2)
                (setHours_0 tz now1) db).
  unfold msPerDay in *. lia.
Qed.

(** Clocks went back an hour at [T], three days before now: the last
    week is an hour longer than seven days, and a registration made
    seven days and thirty minutes ago is counted. *)
Lemma stats_counts_ordered_witness :
  let T := 10 * 86400000 in
  let now := T + 3 * 86400000 in
  let db := [ {| _id := 1%N;
                 address := "0xabcdef0123456789abcdef0123456789abcdef01";
                 registeredAt := now - 7 * 86400000 - 1800000;
                 ipAddress := None;
                 userAgent := None |} ] in
  respond (Stats (daylight_saving_ends T) now now) db
  = (StatsResult 1 0 1, db) /\
  exists total today lastWeek midnight weekAgo,
    respond (Stats (daylight_saving_ends T) now now) db
    = (StatsResult total today lastWeek, db) /\
    total = Z.of_nat (length db) /\
    midnight mod 86400000 = 0 /\
    midnight <= now + LocalTZA_utc (daylight_saving_ends T) now
    < midnight + 86400000 /\
    today = count_since
              (midnight - LocalTZA_local (daylight_saving_ends T) midnight)
              db /\
    weekAgo = now + LocalTZA_utc (daylight_saving_ends T) now
              - 7 * 86400000 /\
    lastWeek = count_since
                 (weekAgo - LocalTZA_local (daylight_saving_ends T) weekAgo)
                 db /\
    total >= lastWeek /\ lastWeek >= today /\ today >= 0.
Proof.
  intros T now db. split; [reflexivity|].
  apply (stats_counts_ordered (daylight_saving_ends T) now now db).
  vm_compute. discriminate.
Defined.

(** ** The prefix of an address *)

Lemma invalid_without_prefix (s : string) :
  substring 0 2 s <> "0x" -> isValidEthereumAddress s = false.
Proof.
  intros H. destruct (isValidEthereumAddress s) eqn:E; [|reflexivity].
  now apply valid_prefix in E.
Qed.

Lemma respond_invalid_format (s : string) (db : collection)
      (ip ua : option string) (oid : ObjectId) (now : Z) :
  s <> "" -> isValidEthereumAddress s = false ->
  respond (Register (JS.Str s) ip ua oid now) db = (InvalidFormat, db) /\
  respond (Check s) db = (InvalidFormat, db).
Proof.
  intros Hs Hv. apply String.eqb_neq in Hs.
  rewrite respond_register, respond_check. simpl. now rewrite Hs, Hv.
Qed.

(** C9.  Register and check answer InvalidFormat to every non-empty
    string whose first two characters are not the lower-case [0x]; the
    store is not touched.  In particular [0X] followed by 40
    hexadecimal digits is rejected, while the same digits after [0x]
    are accepted in either letter case. *)
Theorem prefix_must_be_lowercase_0x :
  (forall (s : string) (db : collection) ip ua oid now,
     s <> "" -> substring 0 2 s <> "0x" ->
     respond (Register (JS.Str s) ip ua oid now) db = (InvalidFormat, db) /\
     respond (Check s) db = (InvalidFormat, db)) /\
  (forall (h : string) (db : collection) ip ua oid now,
     isValidEthereumAddress ("0x" ++ h) = true ->
     respond (Register (JS.Str ("0X" ++ h)) ip ua oid now) db
     = (InvalidFormat, db) /\
     respond (Check ("0X" ++ h)) db = (InvalidFormat, db) /\
     isValidEthereumAddress ("0x" ++ JS.toLowerCase h) = true).
Proof.
  split.
  - intros s db ip ua oid now Hs Hp.
    apply respond_invalid_format; [assumption|].
    now apply invalid_without_prefix.
  - intros h db ip ua oid now Hv.
    rewrite isValidEthereumAddress_0x_lower.
    destruct (respond_invalid_format ("0X" ++ h) db ip ua oid now)
      as [H1 H2]; [discriminate | | auto].
    apply invalid_without_prefix. simpl. destruct h; discriminate.
Qed.

Lemma prefix_must_be_lowercase_0x_witness :
  (respond (Register (JS.Str "0Xabcdef0123456789abcdef0123456789abcdef01")
              None None 1%N 1000) []
   = (InvalidFormat, []) /\
   respond (Check "0Xabcdef0123456789abcdef0123456789abcdef01") []
   = (InvalidFormat, [])) /\
  (respond (Register (JS.Str "0XABCDEF0123456789abcdef0123456789abcdef01")
              None None 1%N 1000) []
   = (InvalidFormat, []) /\
   respond (Check "0XABCDEF0123456789abcdef0123456789abcdef01") []
   = (InvalidFormat, []) /\
   isValidEthereumAddress "0xabcdef0123456789abcdef0123456789abcdef01" = true).
Proof.
  split.
  - apply (proj1 prefix_must_be_lowercase_0x
             "0Xabcdef0123456789abcdef0123456789abcdef01");
      [discriminate | simpl; discriminate].
  - apply (proj2 prefix_must_be_lowercase_0x
             "ABCDEF0123456789abcdef0123456789abcdef01").
    reflexivity.
Defined.

(** ** Responses depend on the public fields only *)

Lemma cons_eq_inv {A} (x y : A) (l l' : list A) :
  x :: l = y :: l' -> x = y /\ l = l'.
Proof. intros H. injection H. auto. Qed.

Section Public.

Variables db1 db2 : collection.
Hypothesis Hpub : same_public db1 db2.

Lemma same_public_length : length db1 = length db2.
Proof.
  rewrite <- (length_map Whitelist.select db1), Hpub. apply length_map.
Qed.

Lemma same_public_find (n : string) :
  option_map Whitelist.select (find (Whitelist.by_address n) db1) =
  option_map Whitelist.select (find (Whitelist.by_address n) db2).
Proof.
  revert Hpub. unfold same_public. generalize db2. clear.
  induction db1 as [|d l IH]; intros [|d' l'] H; try discriminate;
    [reflexivity|].
  cbn [map] in H. apply cons_eq_inv in H as [Hd Hl].
  assert (address d = address d') as Ea by exact (f_equal p_address Hd).
  cbn [find]. unfold Whitelist.by_address at 1 3. rewrite Ea.
  destruct (String.eqb _ _); [cbn [option_map]; congruence | auto].
Qed.

End Public.

Lemma same_public_insert (d1 d2 : Registration) (l1 l2 : collection) :
  Whitelist.select d1 = Whitelist.select d2 ->
  same_public l1 l2 ->
  same_public (Whitelist.insert_desc d1 l1) (Whitelist.insert_desc d2 l2).
Proof.
  unfold same_public. intros Hd. revert l2.
  assert (registeredAt d1 = registeredAt d2) as Ed
      by exact (f_equal p_registeredAt Hd).
  induction l1 as [|x l1 IH]; intros [|y l2] H; try discriminate;
    cbn [Whitelist.insert_desc].
  - cbn [map]. now rewrite Hd.
  - cbn [map] in H. apply cons_eq_inv in H as [Hx Hl].
    assert (registeredAt x = registeredAt y) as Ex
        by exact (f_equal p_registeredAt Hx).
    rewrite Ex, Ed. destruct (registeredAt y <=? registeredAt d2);
      cbn [map].
    + now rewrite Hd, Hx, Hl.
    + now rewrite Hx, (IH l2 Hl).
Qed.

Lemma same_public_sort (db1 db2 : collection) :
  same_public db1 db2 ->
  same_public (Whitelist.sort_desc db1) (Whitelist.sort_desc db2).
Proof.
  revert db2. unfold same_public.
  induction db1 as [|d l IH]; intros [|d' l'] H;
    try discriminate H; [reflexivity|].
  cbn [map] in H. apply cons_eq_inv in H as [Hd Hl].
  cbn [Whitelist.sort_desc]. apply same_public_insert; [assumption|].
  apply IH, Hl.
Qed.

Lemma page_of_map (skip limit : Z) (db : collection) :
  page_of skip limit db =
  let rest := skipn (Z.to_nat skip)
                (map Whitelist.select (Whitelist.sort_desc db)) in
  if limit =? 0 then rest else firstn (Z.to_nat (Z.abs limit)) rest.
Proof.
  unfold page_of. cbv zeta.
  destruct (limit =? 0); now rewrite skipn_map, ?firstn_map.
Qed.

(** C7.  On two stores that differ only in the ipAddress and userAgent
    of their documents, register (whether it creates or finds the
    address registered), check and list give the same responses: no
    response shows a stored ipAddress or userAgent. *)
Theorem responses_hide_ip_and_user_agent :
  forall (db1 db2 : collection),
    same_public db1 db2 ->
    (forall a ip ua oid now,
       fst (respond (Register a ip ua oid now) db1) =
       fst (respond (Register a ip ua oid now) db2)) /\
    (forall s, fst (respond (Check s) db1) = fst (respond (Check s) db2)) /\
    (forall qp ql,
       fst (respond (List qp ql) db1) = fst (respond (List qp ql) db2)).
Proof.
  intros db1 db2 H. split; [|split].
  - intros a ip ua oid now. rewrite !respond_register.
    destruct (_ || _); [reflexivity|].
    destruct (negb _); [reflexivity|]. cbv zeta.
    pose proof (same_public_find db1 db2 H
                  (JS.toLowerCase (string_of a))) as E.
    destruct (find _ db1) as [e1|], (find _ db2) as [e2|];
      try discriminate; [|reflexivity].
    cbn [option_map] in E.
    assert (Whitelist.select e1 = Whitelist.select e2) as E' by congruence.
    clear E. rename E' into E. cbn [fst].
    pose proof (f_equal p_address E) as Ea.
    pose proof (f_equal p_registeredAt E) as Er.
    cbn [Whitelist.select p_address p_registeredAt] in Ea, Er.
    now rewrite Ea, Er.
  - intros s. rewrite !respond_check. simpl.
    destruct (negb (negb _)); [reflexivity|].
    destruct (negb _); [reflexivity|].
    pose proof (same_public_find db1 db2 H (JS.toLowerCase s)) as E.
    destruct (find _ db1) as [e1|], (find _ db2) as [e2|];
      try discriminate; [|reflexivity].
    cbn [option_map] in E.
    assert (Whitelist.select e1 = Whitelist.select e2) as E' by congruence.
    clear E. rename E' into E.
    pose proof (f_equal p_address E) as Ea.
    pose proof (f_equal p_registeredAt E) as Er.
    cbn [Whitelist.select p_address p_registeredAt] in Ea, Er.
    now rewrite Ea, Er.
  - intros qp ql. rewrite !respond_list. simpl.
    destruct (_ <? 0); [reflexivity|].
    rewrite !page_of_map, (same_public_length db1 db2 H).
    now rewrite (same_public_sort db1 db2 H).
Qed.

Lemma responses_hide_ip_and_user_agent_witness :
  let d ip ua :=
    {| _id := 7%N;
       address := "0xabcdef0123456789abcdef0123456789abcdef01";
       registeredAt := 1000;
       ipAddress := ip;
       userAgent := ua |} in
  let db1 := [d (Some "10.0.0.1") (Some "curl/8.0")] in
  let db2 := [d (Some "192.168.1.9") None] in
  fst (respond (Register (JS.Str "0xABCDEF0123456789ABCDEF0123456789ABCDEF01")
                  None None 8%N 2000) db1) =
  fst (respond (Register (JS.Str "0xABCDEF0123456789ABCDEF0123456789ABCDEF01")
                  None None 8%N 2000) db2) /\
  fst (respond (Check "0xabcdef0123456789abcdef0123456789abcdef01") db1) =
  fst (respond (Check "0xabcdef0123456789abcdef0123456789abcdef01") db2) /\
  fst (respond (List None None) db1) = fst (respond (List None None) db2).
Proof.
  intros d db1 db2.
  destruct (responses_hide_ip_and_user_agent db1 db2 eq_refl)
    as [H1 [H2 H3]].
  split; [apply H1 | split; [apply H2 | apply H3]].
Defined.

(** ** Coercion of page and limit *)




(** ** What every reachable store satisfies *)

Lemma normalized_toLowerCase (a : string) :
  isValidEthereumAddress a = true -> normalized (JS.toLowerCase a).
Proof.
  intros H. split; [now apply valid_toLowerCase | apply toLowerCase_idem].
Qed.

Lemma set_address_normalized (n : string) :
  normalized n -> Schema.set_address n = n.
Proof. intros [Hv Hl]. now rewrite (set_address_valid n Hv). Qed.

Lemma by_address_normalized (n : string) :
  normalized n ->
  Whitelist.by_address n = (fun d => String.eqb (address d) n).
Proof.
  intros H. unfold Whitelist.by_address.
  now rewrite (set_address_normalized n H).
Qed.

Lemma find_filter {A} (p : A -> bool) (l : list A) :
  find p l = hd_error (filter p l).
Proof. induction l as [|x l IH]; simpl; [reflexivity|]. now destruct (p x). Qed.

Lemma remove_first_In (p : Registration -> bool) (l : collection)
      (x : Registration) :
  In x (Whitelist.remove_first p l) -> In x l.
Proof.
  induction l as [|y l IH]; simpl; [tauto|].
  destruct (p y); simpl; tauto.
Qed.

Lemma remove_first_none (p : Registration -> bool) (l : collection) :
  find p l = None -> Whitelist.remove_first p l = l.
Proof.
  induction l as [|y l IH]; simpl; [reflexivity|].
  destruct (p y); [discriminate | intros H; now rewrite IH].
Qed.

Lemma remove_first_some (p : Registration -> bool) (l : collection)
      (d : Registration) :
  find p l = Some d ->
  S (length (Whitelist.remove_first p l)) = length l.
Proof.
  induction l as [|y l IH]; simpl; [discriminate|].
  destruct (p y); [reflexivity | intros H; simpl; now rewrite IH].
Qed.

Lemma remove_first_filter (p q : Registration -> bool) (l : collection) :
  (forall x, p x = true -> q x = false) ->
  filter q (Whitelist.remove_first p l) = filter q l.
Proof.
  intros Hpq. induction l as [|y l IH]; simpl; [reflexivity|].
  destruct (p y) eqn:Hp.
  - now rewrite (Hpq y Hp).
  - simpl. now rewrite IH.
Qed.

Lemma remove_first_well_formed (p : Registration -> bool) (l : collection) :
  well_formed l -> well_formed (Whitelist.remove_first p l).
Proof.
  unfold well_formed. induction l as [|y l IH]; simpl; [tauto|].
  intros [Hnd Hall]. inversion Hnd as [|? ? Hy Hnd']; subst.
  inversion Hall as [|? ? Hny Hall']; subst.
  destruct (p y); [tauto|]. simpl.
  destruct (IH (conj Hnd' Hall')) as [IH1 IH2].
  split; [constructor; [|assumption] | constructor; assumption].
  intros Hin. apply Hy. apply in_map_iff in Hin as [x [Hx Hin]].
  apply in_map_iff. exists x. split; [assumption|].
  now apply remove_first_In in Hin.
Qed.

Lemma append_well_formed (db : collection) (d : Registration) :
  well_formed db -> normalized (address d) ->
  find (fun x => String.eqb (address x) (address d)) db = None ->
  well_formed (db ++ [d]).
Proof.
  intros [Hnd Hall] Hd Hf. split.
  - rewrite map_app. simpl.
    apply (Permutation_NoDup (Permutation_cons_append _ _)).
    constructor; [|assumption].
    intros Hin. apply in_map_iff in Hin as [x [Hx Hin]].
    apply (find_none _ _ Hf) in Hin. apply String.eqb_neq in Hin. auto.
  - apply Forall_app. split; [assumption | constructor; auto].
Qed.

Lemma respond_well_formed (r : request) (db : collection) :
  well_formed db -> well_formed (snd (respond r db)).
Proof.
  intros Hwf. destruct r as [a ip ua oid now|s|qp ql|tz n1 n2|s].
  - rewrite respond_register.
    destruct (_ || _); [assumption|].
    destruct (isValidEthereumAddress (string_of a)) eqn:Hv; [|assumption].
    cbn [negb]. cbv zeta.
    pose proof (normalized_toLowerCase _ Hv) as Hn.
    destruct (find _ db) eqn:Hf; [assumption|]. cbn [snd].
    rewrite (by_address_normalized _ Hn) in Hf.
    apply append_well_formed; [assumption | |];
      cbn [Whitelist.new address];
      rewrite (set_address_normalized _ Hn); assumption.
  - now rewrite respond_check.
  - now rewrite respond_list.
  - now rewrite respond_stats.
  - rewrite respond_remove. now apply remove_first_well_formed.
Qed.

Lemma run_well_formed (rs : list request) (db : collection) :
  well_formed db -> well_formed (run rs db).
Proof.
  revert db. induction rs as [|r rs IH]; intros db H; simpl; [assumption|].
  now apply IH, respond_well_formed.
Qed.

Lemma reachable_well_formed (rs : list request) : well_formed (run rs []).
Proof. apply run_well_formed. split; constructor. Qed.

Lemma at_address_unique (n : string) (db : collection) :
  NoDup (map address db) -> (length (at_address n db) <= 1)%nat.
Proof.
  unfold at_address. induction db as [|d db IH]; simpl; intros Hnd; [lia|].
  inversion Hnd as [|? ? Hd Hnd']; subst.
  destruct (String.eqb_spec (address d) n) as [E|E]; [|auto].
  simpl. enough (filter (fun x => String.eqb (address x) n) db = []) as ->
      by (simpl; lia).
  destruct (filter _ db) as [|x l] eqn:Hf; [reflexivity|].
  exfalso. apply Hd.
  assert (In x (filter (fun x => String.eqb (address x) n) db)) as Hin
      by (rewrite Hf; now left).
  apply filter_In in Hin as [Hin Hx]. apply String.eqb_eq in Hx.
  apply in_map_iff. exists x. split; congruence.
Qed.

(** ** Registering twice *)

(** A stored address stays stored, with the same document, as long as
    it is not removed. *)
Lemma respond_keeps (n : string) (d : Registration) (r : request)
      (db : collection) :
  at_address n db = [d] -> keeps n r ->
  at_address n (snd (respond r db)) = [d].
Proof.
  intros Hd Hk. destruct r as [a ip ua oid now|s|qp ql|tz n1 n2|s].
  - rewrite respond_register.
    destruct (_ || _); [assumption|].
    destruct (negb _); [assumption|]. cbv zeta.
    destruct (find _ db) eqn:Hf; [assumption|]. cbn [snd].
    unfold at_address. rewrite filter_app. fold (at_address n db).
    rewrite Hd. cbn [filter Whitelist.new address].
    destruct (String.eqb_spec
                (Schema.set_address (JS.toLowerCase (string_of a))) n)
      as [E|E]; [|reflexivity].
    exfalso.
    assert (In d (at_address n db)) as Hin by (rewrite Hd; now left).
    apply filter_In in Hin as [Hin Hx].
    apply (find_none _ _ Hf) in Hin.
    unfold Whitelist.by_address in Hin. rewrite E in Hin. congruence.
  - now rewrite respond_check.
  - now rewrite respond_list.
  - now rewrite respond_stats.
  - rewrite respond_remove. cbn [snd]. unfold at_address.
    rewrite remove_first_filter; [exact Hd|].
    intros x Hx. unfold Whitelist.by_address in Hx.
    apply String.eqb_eq in Hx. apply String.eqb_neq.
    simpl in Hk. congruence.
Qed.

Lemma run_keeps (n : string) (d : Registration) (rs : list request)
      (db : collection) :
  at_address n db = [d] -> Forall (keeps n) rs ->
  at_address n (run rs db) = [d].
Proof.
  revert db. induction rs as [|r rs IH]; intros db Hd Hk; simpl;
    [assumption|].
  inversion Hk; subst. apply IH; [|assumption].
  now apply respond_keeps.
Qed.

(** Registering a valid address leaves exactly one document for it. *)
Lemma register_stores (a : string) (ip ua : option string) (oid : ObjectId)
      (now : Z) (db : collection) :
  isValidEthereumAddress a = true -> NoDup (map address db) ->
  let n := JS.toLowerCase a in
  exists d,
    at_address n (snd (respond (Register (JS.Str a) ip ua oid now) db)) = [d]
    /\ address d = n /\
    ((at_address n db = [] /\
      d = Whitelist.new oid now n ip ua /\ registeredAt d = now /\
      fst (respond (Register (JS.Str a) ip ua oid now) db) = Created n now)
     \/
     (at_address n db = [d] /\
      snd (respond (Register (JS.Str a) ip ua oid now) db) = db /\
      fst (respond (Register (JS.Str a) ip ua oid now) db)
      = AlreadyRegistered n (registeredAt d))).
Proof.
  intros Hv Hnd n. pose proof (normalized_toLowerCase a Hv) as Hn.
  fold n in Hn. rewrite respond_register.
  assert (JS.Str a = JS.Str a) as _ by reflexivity.
  cbn [JS.truthy JS.typeof_is_string string_of negb orb].
  destruct (String.eqb_spec a "") as [->|_]; [discriminate|].
  cbn [negb orb]. rewrite Hv. cbn [negb]. cbv zeta. fold n.
  rewrite (by_address_normalized n Hn), find_filter.
  fold (at_address n db).
  pose proof (at_address_unique n db Hnd) as Hle.
  destruct (at_address n db) as [|e [|e' l]] eqn:He; cbn [hd_error].
  - exists (Whitelist.new oid now n ip ua). cbn [snd fst].
    unfold at_address. rewrite filter_app. fold (at_address n db).
    rewrite He. cbn [filter Whitelist.new address].
    rewrite (set_address_normalized n Hn), String.eqb_refl.
    split; [reflexivity|]. split; [reflexivity|]. left. repeat split.
  - assert (address e = n) as Ee.
    { assert (In e (at_address n db)) as Hin by (rewrite He; now left).
      apply filter_In in Hin as [_ Hx]. now apply String.eqb_eq in Hx. }
    exists e. cbn [snd fst]. rewrite Ee.
    split; [assumption|]. split; [reflexivity|]. right. repeat split.
  - simpl in Hle. lia.
Qed.

(** C1.  After every sequence of requests the stored addresses are
    pairwise distinct and normalized, so that at most one document
    exists per lower-cased address.  Registering an address and then,
    with no removal of it in between, registering it again in any
    letter case leaves exactly one document for it: the second call
    answers AlreadyRegistered with the date of that document, changes
    nothing, and the document is the one the first call left. *)
Theorem one_registration_per_address :
  (forall (rs : list request),
     NoDup (map address (run rs [])) /\
     (forall d, In d (run rs []) -> normalized (address d)) /\
     (forall a, (length (at_address (JS.toLowerCase a) (run rs []))
                 <= 1)%nat)) /\
  (forall (rs mid : list request) (a b : string)
          ip ua oid now ip' ua' oid' now',
     isValidEthereumAddress a = true ->
     isValidEthereumAddress b = true ->
     JS.toLowerCase a = JS.toLowerCase b ->
     Forall (keeps (JS.toLowerCase a)) mid ->
     let n := JS.toLowerCase a in
     let db0 := run rs [] in
     let first := respond (Register (JS.Str a) ip ua oid now) db0 in
     let db2 := run mid (snd first) in
     let second := respond (Register (JS.Str b) ip' ua' oid' now') db2 in
     exists d,
       at_address n (snd first) = [d] /\ address d = n /\
       (fst first = Created n now /\ registeredAt d = now \/
        fst first = AlreadyRegistered n (registeredAt d)) /\
       fst second = AlreadyRegistered n (registeredAt d) /\
       snd second = db2 /\
       at_address n (snd second) = [d]).
Proof.
  split.
  - intros rs. destruct (reachable_well_formed rs) as [Hnd Hall].
    split; [assumption|]. split.
    + exact (proj1 (Forall_forall _ _) Hall).
    + intros a. now apply at_address_unique.
  - intros rs mid a b ip ua oid now ip' ua' oid' now' Ha Hb Hab Hmid
           n db0 first db2 second.
    destruct (reachable_well_formed rs) as [Hnd0 _]. fold db0 in Hnd0.
    destruct (register_stores a ip ua oid now db0 Ha Hnd0)
      as [d [Hd [Ed Hfirst]]].
    fold n in Hd, Ed, Hfirst. fold first in Hd, Hfirst.
    pose proof (run_keeps n d mid (snd first) Hd Hmid) as Hd2.
    fold db2 in Hd2.
    assert (NoDup (map address db2)) as Hnd2.
    { unfold db2, first, db0.
      change (run mid (snd (respond (Register (JS.Str a) ip ua oid now)
                              (run rs []))))
        with (run (Register (JS.Str a) ip ua oid now :: mid) (run rs [])).
      apply run_well_formed, reachable_well_formed. }
    destruct (register_stores b ip' ua' oid' now' db2 Hb Hnd2)
      as [d' [Hd' [Ed' Hsecond]]].
    rewrite <- Hab in Hd', Ed', Hsecond. fold n in Hd', Ed', Hsecond.
    fold second in Hd', Hsecond.
    destruct Hsecond as [[Hnone _] | [Hsame [Hsnd Hfst]]];
      [rewrite Hd2 in Hnone; discriminate|].
    assert (d' = d) as -> by congruence.
    exists d. repeat split; try assumption.
    destruct Hfirst as [[_ [_ [Hr Hf]]] | [_ [_ Hf]]]; [left | right]; auto.
Qed.

Lemma one_registration_per_address_witness :
  let a := "0xABCDEF0123456789ABCDEF0123456789ABCDEF01" in
  let b := "0xabcdef0123456789ABCDEF0123456789abcdef01" in
  let n := "0xabcdef0123456789abcdef0123456789abcdef01" in
  let other := "0x00000000000000000000000000000000000000aa" in
  let mid := [Check b; Register (JS.Str other) None None 2%N 1500;
              List None None; Remove other] in
  let first := respond (Register (JS.Str a) (Some "10.0.0.1") None 1%N 1000)
                 [] in
  let db2 := run mid (snd first) in
  let second := respond (Register (JS.Str b) None None 3%N 2000) db2 in
  exists d,
    at_address n (snd first) = [d] /\ address d = n /\
    (fst first = Created n 1000 /\ registeredAt d = 1000 \/
     fst first = AlreadyRegistered n (registeredAt d)) /\
    fst second = AlreadyRegistered n (registeredAt d) /\
    snd second = db2 /\
    at_address n (snd second) = [d].
Proof.
  intros a b n other mid first db2 second.
  apply (proj2 one_registration_per_address [] mid a b
           (Some "10.0.0.1") None 1%N 1000 None None 3%N 2000).
  - reflexivity.
  - reflexivity.
  - reflexivity.
  - repeat constructor. discriminate.
Defined.

(** ** Removing *)

Lemma remove_first_filter_same (p : Registration -> bool) (l : collection) :
  (length (filter p l) <= 1)%nat ->
  filter p (Whitelist.remove_first p l) = [].
Proof.
  induction l as [|x l IH]; simpl; [reflexivity|].
  destruct (p x) eqn:Hp; simpl.
  - intros H. destruct (filter p l); [reflexivity | simpl in H; lia].
  - rewrite Hp. exact IH.
Qed.

Lemma remove_first_split (p : Registration -> bool) (l : collection)
      (d : Registration) :
  find p l = Some d ->
  exists l1 l2,
    l = l1 ++ d :: l2 /\ Whitelist.remove_first p l = l1 ++ l2 /\
    p d = true /\ Forall (fun x => p x = false) l1.
Proof.
  induction l as [|x l IH]; simpl; [discriminate|].
  destruct (p x) eqn:Hp.
  - intros [= ->]. exists [], l. repeat split; auto.
  - intros H. destruct (IH H) as [l1 [l2 [-> [Hr [Hd Hl1]]]]].
    exists (x :: l1), l2. simpl. rewrite Hr. repeat split; auto.
Qed.

Lemma by_address_eq (a : string) :
  Whitelist.by_address a =
  (fun d => String.eqb (address d) (Schema.set_address a)).
Proof. reflexivity. Qed.

(** C3, as amended.  On every reachable store, remove answers NotFound
    and leaves the store unchanged for every input whose normalized
    form (lower-cased, and trimmed by the schema) fails the validator,
    and for every input whose normalized form is not a stored address.
    When a document is stored under the normalized input, remove
    answers Removed and takes that document, and no other, out of the
    store; no document of that address is left. *)
Theorem remove_matches_normalized_address :
  forall (rs : list request) (a : string),
    let db := run rs [] in
    let n := JS.trim (JS.toLowerCase a) in
    (isValidEthereumAddress n = false ->
     respond (Remove a) db = (NotFound, db)) /\
    ((forall d, In d db -> address d <> n) ->
     respond (Remove a) db = (NotFound, db)) /\
    (forall d,
       In d db -> address d = n ->
       exists l1 l2,
         db = l1 ++ d :: l2 /\
         respond (Remove a) db = (Removed, l1 ++ l2) /\
         (forall x, In x (l1 ++ l2) -> address x <> n)).
Proof.
  intros rs a db n. rewrite respond_remove.
  destruct (reachable_well_formed rs) as [Hnd Hall]. fold db in Hnd, Hall.
  assert ((forall d, In d db -> address d <> n) ->
          find (Whitelist.by_address a) db = None) as Hnone.
  { intros H. destruct (find (Whitelist.by_address a) db) as [e|] eqn:Hf;
      [|reflexivity].
    apply find_some in Hf as [Hin He]. unfold Whitelist.by_address in He.
    apply String.eqb_eq in He. now apply H in Hin. }
  assert ((forall d, In d db -> address d <> n) ->
          (match find (Whitelist.by_address a) db with
           | Some _ => Removed
           | None => NotFound
           end,
           Whitelist.remove_first (Whitelist.by_address a) db)
          = (NotFound, db)) as Hnot.
  { intros H. rewrite (remove_first_none _ _ (Hnone H)).
    now rewrite (Hnone H). }
  split; [|split; [exact Hnot|]].
  - intros Hinv. apply Hnot. intros d Hin E.
    apply (proj1 (Forall_forall _ _) Hall) in Hin as [Hv _]. congruence.
  - intros d Hin Hd.
    destruct (find (Whitelist.by_address a) db) as [e|] eqn:Hf.
    + destruct (remove_first_split _ _ _ Hf) as [l1 [l2 [E [Er [He _]]]]].
      unfold Whitelist.by_address in He. apply String.eqb_eq in He.
      change (Schema.set_address a) with n in He.
      assert (forall x, In x (l1 ++ l2) -> address x <> n) as Hrest.
      { intros x Hx Ex. rewrite E, map_app in Hnd. cbn [map] in Hnd.
        apply NoDup_remove_2 in Hnd. apply Hnd.
        rewrite <- map_app, He, <- Ex. now apply in_map. }
      assert (d = e) as ->.
      { rewrite E in Hin. apply in_app_or in Hin as [Hin | [Hin | Hin]].
        - exfalso. apply (Hrest d); [apply in_or_app; now left | exact Hd].
        - now symmetry.
        - exfalso. apply (Hrest d); [apply in_or_app; now right | exact Hd]. }
      exists l1, l2. rewrite Er. auto.
    + exfalso. apply (find_none _ _ Hf) in Hin.
      unfold Whitelist.by_address in Hin.
      change (Schema.set_address a) with n in Hin.
      rewrite Hd, String.eqb_refl in Hin. discriminate.
Qed.

Lemma remove_matches_normalized_address_witness :
  let b := {| _id := 1%N;
              address := "0x00000000000000000000000000000000000000a1";
              registeredAt := 1000;
              ipAddress := None;
              userAgent := None |} in
  let d := {| _id := 2%N;
              address := "0x00000000000000000000000000000000000000a2";
              registeredAt := 2000;
              ipAddress := None;
              userAgent := None |} in
  let rs := [Register (JS.Str (address b)) None None 1%N 1000;
             Register (JS.Str (address d)) None None 2%N 2000] in
  respond (Remove "0x00000000000000000000000000000000000000a") (run rs [])
  = (NotFound, run rs []) /\
  respond (Remove "0x00000000000000000000000000000000000000a3") (run rs [])
  = (NotFound, run rs []) /\
  respond (Remove " 0X00000000000000000000000000000000000000A2") (run rs [])
  = (Removed, [b]) /\
  exists l1 l2,
    run rs [] = l1 ++ d :: l2 /\
    respond (Remove " 0X00000000000000000000000000000000000000A2") (run rs [])
    = (Removed, l1 ++ l2) /\
    (forall x, In x (l1 ++ l2) ->
               address x <> "0x00000000000000000000000000000000000000a2").
Proof.
  intros b d rs.
  split; [|split; [|split; [reflexivity|]]].
  - apply (proj1 (remove_matches_normalized_address rs
                    "0x00000000000000000000000000000000000000a")).
    reflexivity.
  - apply (proj1 (proj2 (remove_matches_normalized_address rs
                           "0x00000000000000000000000000000000000000a3"))).
    intros x [<- | [<- | []]]; discriminate.
  - apply (proj2 (proj2 (remove_matches_normalized_address rs
                           " 0X00000000000000000000000000000000000000A2"))
             d).
    + right. now left.
    + reflexivity.
Defined.

(** C3, as stated, fails: an input with the prefix [0X] fails the
    validator, and removing it deletes the registration. *)
Lemma remove_uppercase_prefix_deletes :
  let n := "0xabcdef0123456789abcdef0123456789abcdef01" in
  let raw := "0Xabcdef0123456789abcdef0123456789abcdef01" in
  let db := run [Register (JS.Str n) None None 1%N 1000] [] in
  isValidEthereumAddress raw = false /\
  length db = 1%nat /\
  respond (Remove raw) db = (Removed, []) /\
  fst (respond (Remove raw) db) <> NotFound.
Proof. repeat split. discriminate. Qed.

(** ** Sorting *)

Lemma insert_desc_perm (d : Registration) (l : collection) :
  Permutation (Whitelist.insert_desc d l) (d :: l).
Proof.
  induction l as [|x l IH]; simpl; [reflexivity|].
  destruct (registeredAt x <=? registeredAt d); [reflexivity|].
  rewrite IH. apply perm_swap.
Qed.

Lemma sort_desc_perm (l : collection) :
  Permutation (Whitelist.sort_desc l) l.
Proof.
  induction l as [|d l IH]; simpl; [reflexivity|].
  rewrite insert_desc_perm. now constructor.
Qed.

Lemma sort_desc_length (l : collection) :
  length (Whitelist.sort_desc l) = length l.
Proof. apply Permutation_length, sort_desc_perm. Qed.

Lemma insert_desc_sorted (d : Registration) (l : collection) :
  StronglySorted not_older l ->
  StronglySorted not_older (Whitelist.insert_desc d l).
Proof.
  induction l as [|x l IH]; intros Hs; simpl.
  - constructor; constructor.
  - apply StronglySorted_inv in Hs as [Hl Hx].
    destruct (registeredAt x <=? registeredAt d) eqn:E.
    + apply Z.leb_le in E. constructor; [now constructor|].
      constructor; [exact E|].
      apply Forall_forall. intros y Hy.
      apply (proj1 (Forall_forall _ _) Hx) in Hy.
      unfold not_older in *. lia.
    + apply Z.leb_gt in E. constructor; [now apply IH|].
      apply (Permutation_Forall (Permutation_sym (insert_desc_perm d l))).
      constructor; [unfold not_older; lia | assumption].
Qed.

Lemma sort_desc_sorted (l : collection) :
  StronglySorted not_older (Whitelist.sort_desc l).
Proof.
  induction l as [|d l IH]; simpl; [constructor|].
  now apply insert_desc_sorted.
Qed.

(** Documents of one date come out in insertion order. *)
Lemma insert_desc_stable (t : Z) (d : Registration) (l : collection) :
  filter (fun x => registeredAt x =? t) (Whitelist.insert_desc d l) =
  filter (fun x => registeredAt x =? t) (d :: l).
Proof.
  induction l as [|x l IH]; [reflexivity|].
  cbn [Whitelist.insert_desc].
  destruct (registeredAt x <=? registeredAt d) eqn:E; [reflexivity|].
  apply Z.leb_gt in E.
  cbn [filter] in *. rewrite IH.
  destruct (Z.eqb_spec (registeredAt x) t), (Z.eqb_spec (registeredAt d) t);
    try reflexivity; lia.
Qed.

Lemma sort_desc_stable (t : Z) (l : collection) :
  filter (fun x => registeredAt x =? t) (Whitelist.sort_desc l) =
  filter (fun x => registeredAt x =? t) l.
Proof.
  induction l as [|d l IH]; [reflexivity|].
  cbn [Whitelist.sort_desc]. rewrite insert_desc_stable.
  cbn [filter]. now rewrite IH.
Qed.

(** ** Pages *)

Lemma firstn_add {A} (a b : nat) (l : list A) :
  firstn (a + b) l = (firstn a l ++ firstn b (skipn a l)).
Proof.
  revert l. induction a as [|a IH]; intros l; [reflexivity|].
  destruct l as [|x l]; simpl; [now rewrite firstn_nil | now rewrite IH].
Qed.

Lemma concat_pages {A} (L P : nat) (l : list A) :
  concat (map (fun k => firstn L (skipn (k * L) l)) (seq 0 P)) =
  firstn (P * L) l.
Proof.
  induction P as [|P IH]; [reflexivity|].
  rewrite seq_S, map_app, concat_app, IH. simpl.
  rewrite app_nil_r, <- firstn_add. f_equal. lia.
Qed.

Lemma Math_ceil_div_spec (t l : Z) :
  0 < l ->
  (JS.Math_ceil_div t l - 1) * l < t <= JS.Math_ceil_div t l * l.
Proof.
  intros Hl. unfold JS.Math_ceil_div.
  pose proof (Z.div_mod (- t) l ltac:(lia)).
  pose proof (Z.mod_pos_bound (- t) l Hl). nia.
Qed.

(** The response to a list request with positive page and limit. *)
Lemma respond_list_positive (qp ql : option string) (db : collection) :
  0 < Api.list_page qp -> 0 < Api.list_limit ql ->
  respond (List qp ql) db =
  (let regs :=
     map Whitelist.select
       (firstn (Z.to_nat (Api.list_limit ql))
          (skipn (Z.to_nat ((Api.list_page qp - 1) * Api.list_limit ql))
             (Whitelist.sort_desc db))) in
   ListResult (Z.of_nat (length regs)) (Z.of_nat (length db))
     (Api.list_page qp)
     (JS.Math_ceil_div (Z.of_nat (length db)) (Api.list_limit ql)) regs,
   db).
Proof.
  intros Hp Hl. rewrite respond_list. unfold Api.list_skip, page_of.
  destruct (Z.ltb_spec ((Api.list_page qp - 1) * Api.list_limit ql) 0);
    [nia|].
  destruct (Z.eqb_spec (Api.list_limit ql) 0); [lia|].
  now rewrite Z.abs_eq by lia.
Qed.

Lemma list_page_decimal (k : Z) :
  k <> 0 -> Api.list_page (Some (decimal k)) = k.
Proof.
  intros Hk. unfold Api.list_page. rewrite parseInt_decimal. simpl.
  apply Z.eqb_neq in Hk. now rewrite Hk.
Qed.

Lemma list_limit_decimal (k : Z) :
  k <> 0 -> Api.list_limit (Some (decimal k)) = k.
Proof.
  intros Hk. unfold Api.list_limit.
  exact (or_default_pass _ 50 k Hk (parseInt_decimal k)).
Qed.

(** The response to the numerals of a positive page and limit. *)
Lemma respond_list_numerals (page limit : Z) (db : collection) :
  0 < page -> 0 < limit ->
  respond (List (Some (decimal page)) (Some (decimal limit))) db =
  (let regs :=
     map Whitelist.select
       (firstn (Z.to_nat limit)
          (skipn (Z.to_nat ((page - 1) * limit))
             (Whitelist.sort_desc db))) in
   ListResult (Z.of_nat (length regs)) (Z.of_nat (length db)) page
     (JS.Math_ceil_div (Z.of_nat (length db)) limit) regs,
   db).
Proof.
  intros Hp Hl.
  assert (Api.list_page (Some (decimal page)) = page) as Ep
      by (apply list_page_decimal; lia).
  assert (Api.list_limit (Some (decimal limit)) = limit) as El
      by (apply list_limit_decimal; lia).
  rewrite respond_list_positive by (rewrite ?Ep, ?El; assumption).
  now rewrite Ep, El.
Qed.

(** C5.  For every store and every positive page and limit, sent as
    decimal numerals and safe integers together with the skip and the
    total, list answers with total the number of all documents,
    totalPages the ceiling of total / limit, count the length of the
    slice, and as slice the rows (_id, address, registeredAt) of the
    documents that start (page - 1) * limit documents into the
    registrations sorted by registeredAt, newest first.  The slices of
    the pages 1 to totalPages, one after another, are the rows of the
    sorted registrations, which are a permutation of the stored ones. *)
Theorem list_pagination :
  forall (db : collection) (page limit : Z),
    let total := Z.of_nat (length db) in
    let sorted := Whitelist.sort_desc db in
    let row := fun d : Registration =>
                 {| p_id := _id d;
                    p_address := address d;
                    p_registeredAt := registeredAt d |} in
    0 < page -> 0 < limit ->
    JS.isSafeInteger page -> JS.isSafeInteger limit ->
    JS.isSafeInteger ((page - 1) * limit) -> JS.isSafeInteger total ->
    exists totalPages regs,
      respond (List (Some (decimal page)) (Some (decimal limit))) db =
      (ListResult (Z.of_nat (length regs)) total page totalPages regs,
       db) /\
      (totalPages - 1) * limit < total <= totalPages * limit /\
      regs = map row
               (firstn (Z.to_nat limit)
                  (skipn (Z.to_nat ((page - 1) * limit)) sorted)) /\
      Permutation sorted db /\
      StronglySorted (fun d1 d2 => registeredAt d2 <= registeredAt d1)
        sorted /\
      concat
        (map (fun k =>
                registrations_of
                  (fst (respond
                          (List (Some (decimal (Z.of_nat k)))
                             (Some (decimal limit))) db)))
           (seq 1 (Z.to_nat totalPages)))
      = map row sorted.
Proof.
  intros db page limit total sorted row Hp Hl _ _ _ _.
  change row with Whitelist.select.
  exists (JS.Math_ceil_div total limit). eexists.
  rewrite (respond_list_numerals page limit db Hp Hl). cbv zeta.
  fold total sorted.
  pose proof (Math_ceil_div_spec total limit Hl) as Hc.
  split; [reflexivity|]. split; [exact Hc|]. split; [reflexivity|].
  split; [apply sort_desc_perm|]. split; [apply sort_desc_sorted|].
  set (P := Z.to_nat (JS.Math_ceil_div total limit)).
  rewrite <- seq_shift, map_map.
  rewrite (map_ext
             (fun k => registrations_of
                (fst (respond
                        (List (Some (decimal (Z.of_nat (S k))))
                           (Some (decimal limit))) db)))
             (fun k => map Whitelist.select
                (firstn (Z.to_nat limit)
                   (skipn (k * Z.to_nat limit) sorted)))).
  - rewrite <- (map_map
                  (fun k => firstn (Z.to_nat limit)
                              (skipn (k * Z.to_nat limit) sorted))
                  (map Whitelist.select)).
    rewrite <- concat_map, concat_pages, firstn_all2; [reflexivity|].
    unfold sorted. rewrite sort_desc_length. subst P total. nia.
  - intros k. rewrite respond_list_numerals by lia.
    cbv zeta. cbn [fst registrations_of]. fold sorted.
    do 3 f_equal. nia.
Qed.

Lemma list_pagination_witness :
  let db :=
    run [Register (JS.Str "0x00000000000000000000000000000000000000a1")
           None None 1%N 1000;
         Register (JS.Str "0x00000000000000000000000000000000000000a2")
           None None 2%N 3000;
         Register (JS.Str "0x00000000000000000000000000000000000000a3")
           None None 3%N 2000] [] in
  let row := fun d : Registration =>
               {| p_id := _id d;
                  p_address := address d;
                  p_registeredAt := registeredAt d |} in
  exists totalPages regs,
    respond (List (Some (decimal 2)) (Some (decimal 2))) db =
    (ListResult (Z.of_nat (length regs)) 3 2 totalPages regs, db) /\
    (totalPages - 1) * 2 < 3 <= totalPages * 2 /\
    regs = map row (firstn 2 (skipn 2 (Whitelist.sort_desc db))) /\
    Permutation (Whitelist.sort_desc db) db /\
    StronglySorted (fun d1 d2 => registeredAt d2 <= registeredAt d1)
      (Whitelist.sort_desc db) /\
    concat
      (map (fun k =>
              registrations_of
                (fst (respond
                        (List (Some (decimal (Z.of_nat k)))
                           (Some (decimal 2))) db)))
         (seq 1 (Z.to_nat totalPages)))
    = map row (Whitelist.sort_desc db).
Proof.
  intros db row.
  apply (list_pagination db 2 2);
    try reflexivity; unfold JS.isSafeInteger, JS.MAX_SAFE_INTEGER;
    simpl; lia.
Defined.

(** C10.  For every store and every positive page and limit, sent as
    decimal numerals and safe integers together with the skip and the
    total, the slice that list returns has length
    max(0, min(limit, total - (page - 1) * limit)).  A page beyond the
    last document returns no registration, with the total and the
    totalPages that page 1 reports for that limit. *)
Theorem list_slice_length :
  forall (db : collection) (page limit : Z),
    let total := Z.of_nat (length db) in
    0 < page -> 0 < limit ->
    JS.isSafeInteger page -> JS.isSafeInteger limit ->
    JS.isSafeInteger ((page - 1) * limit) -> JS.isSafeInteger total ->
    exists totalPages regs,
      respond (List (Some (decimal page)) (Some (decimal limit))) db =
      (ListResult (Z.of_nat (length regs)) total page totalPages regs,
       db) /\
      Z.of_nat (length regs) =
      Z.max 0 (Z.min limit (total - (page - 1) * limit)) /\
      (total <= (page - 1) * limit ->
       regs = [] /\
       exists count1 regs1,
         respond (List (Some "1") (Some (decimal limit))) db =
         (ListResult count1 total 1 totalPages regs1, db)).
Proof.
  intros db page limit total Hp Hl _ _ _ _.
  rewrite (respond_list_numerals page limit db Hp Hl). cbv zeta.
  fold total. do 2 eexists. split; [reflexivity|].
  rewrite length_map, length_firstn, length_skipn, sort_desc_length.
  assert (0 <= (page - 1) * limit) as Hskip by nia.
  revert Hskip. generalize ((page - 1) * limit) as skip. intros skip Hskip.
  split; [subst total; lia|].
  intros Hbeyond. split.
  - rewrite skipn_all2; [now rewrite firstn_nil|].
    rewrite sort_desc_length. subst total. lia.
  - change (Some "1") with (Some (decimal 1)).
    rewrite (respond_list_numerals 1 limit db eq_refl Hl). cbv zeta.
    fold total. do 2 eexists. reflexivity.
Qed.

(** Three registrations and a limit of 2: page 1 has two rows, page 2
    one row, and page 3, beyond the end, none. *)
Lemma list_slice_length_witness :
  let db :=
    run [Register (JS.Str "0x00000000000000000000000000000000000000a1")
           None None 1%N 1000;
         Register (JS.Str "0x00000000000000000000000000000000000000a2")
           None None 2%N 3000;
         Register (JS.Str "0x00000000000000000000000000000000000000a3")
           None None 3%N 2000] [] in
  (exists totalPages regs,
     respond (List (Some (decimal 1)) (Some (decimal 2))) db =
     (ListResult (Z.of_nat (length regs)) 3 1 totalPages regs, db) /\
     Z.of_nat (length regs) = Z.max 0 (Z.min 2 (3 - (1 - 1) * 2)) /\
     (3 <= (1 - 1) * 2 ->
      regs = [] /\
      exists count1 regs1,
        respond (List (Some "1") (Some (decimal 2))) db =
        (ListResult count1 3 1 totalPages regs1, db))) /\
  (exists totalPages regs,
     respond (List (Some (decimal 3)) (Some (decimal 2))) db =
     (ListResult (Z.of_nat (length regs)) 3 3 totalPages regs, db) /\
     Z.of_nat (length regs) = Z.max 0 (Z.min 2 (3 - (3 - 1) * 2)) /\
     (3 <= (3 - 1) * 2 ->
      regs = [] /\
      exists count1 regs1,
        respond (List (Some "1") (Some (decimal 2))) db =
        (ListResult count1 3 1 totalPages regs1, db))).
Proof.
  intros db. split.
  - apply (list_slice_length db 1 2);
      try reflexivity; unfold JS.isSafeInteger, JS.MAX_SAFE_INTEGER;
      simpl; lia.
  - apply (list_slice_length db 3 2);
      try reflexivity; unfold JS.isSafeInteger, JS.MAX_SAFE_INTEGER;
      simpl; lia.
Defined.

(* ================================================================== *)
(** * Further properties of the handlers *)

(** ** Register *)

(** X2.  Register answers InvalidInput, and leaves the store as it
    was, to every body whose address is absent, null, not a string, or
    the empty string. *)
Theorem register_invalid_input :
  forall (v : JS.value) ip ua oid now (db : collection),
    (forall s, v = JS.Str s -> s = "") ->
    respond (Register v ip ua oid now) db = (InvalidInput, db).
Proof.
  intros v ip ua oid now db H. rewrite respond_register.
  destruct v as [| |b|z|s|]; try (simpl; now rewrite ?orb_true_r).
  rewrite (H s eq_refl). reflexivity.
Qed.

Lemma register_invalid_input_witness :
  respond (Register JS.Undefined None None 1%N 1000) [] = (InvalidInput, [])
  /\ respond (Register (JS.Number 42) None None 1%N 1000) []
     = (InvalidInput, [])
  /\ respond (Register (JS.Str "") None None 1%N 1000) []
     = (InvalidInput, []).
Proof.
  split; [|split]; apply register_invalid_input.
  - intros s H. discriminate H.
  - intros s H. discriminate H.
  - intros s H. now injection H as <-.
Defined.

(** X3.  Registering a valid address that is not stored answers
    Created with the address in lower case and the date of the request,
    and appends one document, which holds that address and date and the
    client's ip address and user agent. *)
Theorem register_creates :
  forall (a : string) ip ua oid now (db : collection),
    isValidEthereumAddress a = true ->
    at_address (JS.toLowerCase a) db = [] ->
    respond (Register (JS.Str a) ip ua oid now) db =
    (Created (JS.toLowerCase a) now,
     db ++ [ {| _id := oid;
                address := JS.toLowerCase a;
                registeredAt := now;
                ipAddress := ip;
                userAgent := ua |} ]).
Proof.
  intros a ip ua oid now db Hv Hnone.
  pose proof (normalized_toLowerCase a Hv) as Hn.
  rewrite respond_register.
  cbn [JS.truthy JS.typeof_is_string string_of negb orb].
  destruct (String.eqb_spec a "") as [->|_]; [discriminate|].
  cbn [negb orb]. rewrite Hv. cbn [negb]. cbv zeta.
  rewrite (by_address_normalized _ Hn), find_filter.
  fold (at_address (JS.toLowerCase a) db). rewrite Hnone. cbn [hd_error].
  unfold Whitelist.new. now rewrite (set_address_normalized _ Hn).
Qed.

Lemma register_creates_witness :
  respond (Register (JS.Str "0xABCDEF0123456789ABCDEF0123456789ABCDEF01")
             (Some "10.0.0.1") (Some "curl/8.0") 7%N 1000) [] =
  (Created "0xabcdef0123456789abcdef0123456789abcdef01" 1000,
   [ {| _id := 7%N;
        address := "0xabcdef0123456789abcdef0123456789abcdef01";
        registeredAt := 1000;
        ipAddress := Some "10.0.0.1";
        userAgent := Some "curl/8.0" |} ]).
Proof.
  apply (register_creates "0xABCDEF0123456789ABCDEF0123456789ABCDEF01");
    reflexivity.
Defined.

(** What a valid address gets from check and from register, by what is
    stored under it. *)
Lemma respond_valid (a : string) (db : collection) :
  isValidEthereumAddress a = true ->
  (forall ip ua oid now,
     respond (Register (JS.Str a) ip ua oid now) db =
     match hd_error (at_address (JS.toLowerCase a) db) with
     | Some e => (AlreadyRegistered (address e) (registeredAt e), db)
     | None =>
         (Created (JS.toLowerCase a) now,
          db ++ [Whitelist.new oid now (JS.toLowerCase a) ip ua])
     end) /\
  respond (Check a) db =
  (match hd_error (at_address (JS.toLowerCase a) db) with
   | Some e => CheckResult true (Some (address e, registeredAt e))
   | None => CheckResult false None
   end, db).
Proof.
  intros Hv. pose proof (normalized_toLowerCase a Hv) as Hn.
  assert (a <> "") as Ha by (intros ->; discriminate).
  apply String.eqb_neq in Ha.
  split; [intros ip ua oid now; rewrite respond_register
         | rewrite respond_check];
    cbn [JS.truthy JS.typeof_is_string string_of];
    rewrite Ha, Hv; cbn [negb orb]; cbv zeta;
    rewrite (by_address_normalized _ Hn), find_filter;
    fold (at_address (JS.toLowerCase a) db);
    destruct (hd_error _); try reflexivity.
  now rewrite (set_address_normalized _ Hn).
Qed.

(** X4.  Check and register agree: for two valid spellings of one
    address, check reports it registered, with an address and a date,
    exactly when register answers AlreadyRegistered with the same
    address and date; check reports it unregistered exactly when
    register creates it. *)
Theorem check_agrees_with_register :
  forall (a b : string) ip ua oid now (db : collection),
    isValidEthereumAddress a = true ->
    isValidEthereumAddress b = true ->
    JS.toLowerCase a = JS.toLowerCase b ->
    (forall n t,
       fst (respond (Check a) db) = CheckResult true (Some (n, t)) <->
       fst (respond (Register (JS.Str b) ip ua oid now) db)
       = AlreadyRegistered n t) /\
    (fst (respond (Check a) db) = CheckResult false None <->
     fst (respond (Register (JS.Str b) ip ua oid now) db)
     = Created (JS.toLowerCase a) now).
Proof.
  intros a b ip ua oid now db Ha Hb Hab.
  destruct (respond_valid a db Ha) as [_ ->].
  destruct (respond_valid b db Hb) as [-> _].
  rewrite <- Hab.
  destruct (hd_error _) as [e|]; cbn [fst]; split; try intros n t;
    split; intros H; try discriminate; try reflexivity;
    injection H as -> ->; reflexivity.
Qed.

Lemma check_agrees_with_register_witness :
  let a := "0xABCDEF0123456789ABCDEF0123456789ABCDEF01" in
  let b := "0xabcdef0123456789abcdef0123456789abcdef01" in
  let db := run [Register (JS.Str a) None None 1%N 1000] [] in
  fst (respond (Check a) db) = CheckResult true (Some (b, 1000)) <->
  fst (respond (Register (JS.Str b) None None 2%N 2000) db)
  = AlreadyRegistered b 1000.
Proof.
  intros a b db.
  apply (check_agrees_with_register a b None None 2%N 2000 db);
    reflexivity.
Defined.

(** ** Remove *)

(** X5.  On every reachable store, after a remove the address is gone:
    removing it again answers NotFound and changes nothing, check
    reports it unregistered, and registering it again creates it with
    the date of the new request. *)
Theorem remove_then_absent :
  forall (rs : list request) (a : string),
    let db' := snd (respond (Remove a) (run rs [])) in
    respond (Remove a) db' = (NotFound, db') /\
    (forall b,
       isValidEthereumAddress b = true ->
       JS.toLowerCase b = Schema.set_address a ->
       respond (Check b) db' = (CheckResult false None, db') /\
       (forall ip ua oid now,
          fst (respond (Register (JS.Str b) ip ua oid now) db')
          = Created (JS.toLowerCase b) now)).
Proof.
  intros rs a db'.
  assert (at_address (Schema.set_address a) db' = []) as Hgone.
  { unfold db'. rewrite respond_remove. cbn [snd]. unfold at_address.
    rewrite by_address_eq. apply remove_first_filter_same.
    apply (at_address_unique (Schema.set_address a)).
    apply reachable_well_formed. }
  split.
  - rewrite respond_remove, find_filter, by_address_eq.
    fold (at_address (Schema.set_address a) db'). rewrite Hgone.
    cbn [hd_error]. f_equal. apply remove_first_none.
    rewrite find_filter. fold (at_address (Schema.set_address a) db').
    now rewrite Hgone.
  - intros b Hb Hab. destruct (respond_valid b db' Hb) as [Hreg Hchk].
    rewrite Hab, Hgone in *. cbn [hd_error] in *. split; [exact Hchk|].
    intros ip ua oid now. now rewrite Hreg.
Qed.

Lemma remove_then_absent_witness :
  let a := "0xabcdef0123456789abcdef0123456789abcdef01" in
  let db' :=
    snd (respond (Remove "0XABCDEF0123456789abcdef0123456789ABCDEF01")
           (run [Register (JS.Str a) None None 1%N 1000] [])) in
  respond (Check a) db' = (CheckResult false None, db') /\
  (forall ip ua oid now,
     fst (respond (Register (JS.Str a) ip ua oid now) db')
     = Created (JS.toLowerCase a) now).
Proof.
  intros a db'.
  apply (remove_then_absent [Register (JS.Str a) None None 1%N 1000]
           "0XABCDEF0123456789abcdef0123456789ABCDEF01");
    reflexivity.
Defined.

(** X6.  A remove touches no other address: the documents stored under
    any address other than the normalized input are the same before and
    after, and so is the answer of check for them. *)
Theorem remove_leaves_other_addresses :
  forall (db : collection) (a : string),
    let db' := snd (respond (Remove a) db) in
    (forall n, n <> Schema.set_address a ->
               at_address n db' = at_address n db) /\
    (forall b,
       isValidEthereumAddress b = true ->
       JS.toLowerCase b <> Schema.set_address a ->
       fst (respond (Check b) db') = fst (respond (Check b) db)).
Proof.
  intros db a db'.
  assert (forall n, n <> Schema.set_address a ->
                    at_address n db' = at_address n db) as Hframe.
  { intros n Hn. unfold db'. rewrite respond_remove. cbn [snd].
    unfold at_address. apply remove_first_filter.
    intros x Hx. unfold Whitelist.by_address in Hx.
    apply String.eqb_eq in Hx. apply String.eqb_neq. congruence. }
  split; [exact Hframe|].
  intros b Hb Hne.
  destruct (respond_valid b db' Hb) as [_ ->].
  destruct (respond_valid b db Hb) as [_ ->].
  now rewrite (Hframe _ Hne).
Qed.

Lemma remove_leaves_other_addresses_witness :
  let a := "0xabcdef0123456789abcdef0123456789abcdef01" in
  let b := "0x00000000000000000000000000000000000000aa" in
  let db := run [Register (JS.Str a) None None 1%N 1000;
                 Register (JS.Str b) None None 2%N 2000] [] in
  at_address b (snd (respond (Remove a) db)) = at_address b db /\
  fst (respond (Check b) (snd (respond (Remove a) db)))
  = fst (respond (Check b) db).
Proof.
  intros a b db.
  destruct (remove_leaves_other_addresses db a) as [H1 H2].
  split; [apply H1; discriminate | apply H2; [reflexivity | discriminate]].
Defined.

(** ** What a request does to the store *)

(** X7.  The response tells what happened to the store.  After Created
    one document with the address and date of the response has been
    appended; after Removed exactly one document has been taken out,
    the others keeping their order; after any other response the store
    is unchanged.  No request changes a stored document. *)
Theorem store_transitions :
  forall (r : request) (db : collection),
    match fst (respond r db) with
    | Created n t =>
        exists new,
          address new = n /\ registeredAt new = t /\
          snd (respond r db) = db ++ [new]
    | Removed =>
        exists l1 d l2,
          db = l1 ++ d :: l2 /\ snd (respond r db) = l1 ++ l2
    | _ => snd (respond r db) = db
    end.
Proof.
  intros r db. destruct r as [a ip ua oid now|s|qp ql|tz n1 n2|s].
  - rewrite respond_register.
    destruct (_ || _); [reflexivity|].
    destruct (negb _); [reflexivity|]. cbv zeta.
    destruct (find _ db); [reflexivity|]. cbn [fst snd].
    exists (Whitelist.new oid now (JS.toLowerCase (string_of a)) ip ua).
    repeat split.
  - rewrite respond_check. cbn [fst snd].
    destruct (negb _); [reflexivity|]. destruct (negb _); [reflexivity|].
    now destruct (find _ db).
  - rewrite respond_list. cbn [fst snd]. now destruct (_ <? 0).
  - now rewrite respond_stats.
  - rewrite respond_remove. cbn [fst snd].
    destruct (find _ db) as [d|] eqn:Hf.
    + destruct (remove_first_split _ _ _ Hf) as [l1 [l2 [H1 [H2 _]]]].
      exists l1, d, l2. auto.
    + now apply remove_first_none.
Qed.

(** ** Check *)

(** X8.  Once check reports an address registered on a reachable
    store, it reports the same address and date after any further
    requests that do not remove that address. *)
Theorem check_stays_registered :
  forall (rs mid : list request) (a n : string) (t : Z),
    isValidEthereumAddress a = true ->
    Forall (keeps (JS.toLowerCase a)) mid ->
    fst (respond (Check a) (run rs [])) = CheckResult true (Some (n, t)) ->
    fst (respond (Check a) (run mid (run rs [])))
    = CheckResult true (Some (n, t)).
Proof.
  intros rs mid a n t Ha Hmid.
  destruct (respond_valid a (run rs []) Ha) as [_ ->].
  destruct (respond_valid a (run mid (run rs [])) Ha) as [_ ->].
  cbn [fst].
  pose proof (at_address_unique (JS.toLowerCase a) (run rs [])
                (proj1 (reachable_well_formed rs))) as Hle.
  destruct (at_address (JS.toLowerCase a) (run rs [])) as [|e [|e' l]] eqn:He;
    cbn [hd_error]; [discriminate | | simpl in Hle; lia].
  now rewrite (run_keeps _ e mid _ He Hmid).
Qed.

Lemma check_stays_registered_witness :
  let a := "0xabcdef0123456789abcdef0123456789abcdef01" in
  let b := "0x00000000000000000000000000000000000000aa" in
  fst (respond (Check a)
         (run [Register (JS.Str b) None None 2%N 2000; Remove b;
               Stats UTC_zone 5000 5000]
            (run [Register (JS.Str a) None None 1%N 1000] [])))
  = CheckResult true (Some (a, 1000)).
Proof.
  intros a b.
  apply (check_stays_registered [Register (JS.Str a) None None 1%N 1000]).
  - reflexivity.
  - repeat constructor. discriminate.
  - reflexivity.
Defined.

(** ** Letter case *)

(** X9.  Register and check answer alike, and leave the same store,
    for two valid spellings of one address; remove answers alike for
    two inputs with the same normalized form. *)
Theorem requests_ignore_letter_case :
  forall (db : collection),
    (forall a b ip ua oid now,
       isValidEthereumAddress a = true ->
       isValidEthereumAddress b = true ->
       JS.toLowerCase a = JS.toLowerCase b ->
       respond (Register (JS.Str a) ip ua oid now) db =
       respond (Register (JS.Str b) ip ua oid now) db /\
       respond (Check a) db = respond (Check b) db) /\
    (forall x y,
       Schema.set_address x = Schema.set_address y ->
       respond (Remove x) db = respond (Remove y) db).
Proof.
  intros db. split.
  - intros a b ip ua oid now Ha Hb Hab.
    destruct (respond_valid a db Ha) as [Hra ->].
    destruct (respond_valid b db Hb) as [Hrb ->].
    now rewrite Hra, Hrb, Hab.
  - intros x y Hxy. rewrite !respond_remove, !by_address_eq. now rewrite Hxy.
Qed.

Lemma requests_ignore_letter_case_witness :
  let a := "0xABCDEF0123456789ABCDEF0123456789ABCDEF01" in
  let b := "0xabcdef0123456789abcdef0123456789abcdef01" in
  (respond (Register (JS.Str a) None None 1%N 1000) [] =
   respond (Register (JS.Str b) None None 1%N 1000) [] /\
   respond (Check a) [] = respond (Check b) []) /\
  respond (Remove "0XABCDEF0123456789abcdef0123456789ABCDEF01") []
  = respond (Remove b) [].
Proof.
  intros a b. destruct (requests_ignore_letter_case []) as [H1 H2].
  split; [apply H1; reflexivity | apply H2; reflexivity].
Defined.

(** ** List *)

Lemma StronglySorted_skipn {A} (R : A -> A -> Prop) (n : nat) (l : list A) :
  StronglySorted R l -> StronglySorted R (skipn n l).
Proof.
  revert l. induction n as [|n IH]; intros l H; [exact H|].
  destruct l as [|x l]; [exact H|].
  apply StronglySorted_inv in H as [H _]. now apply IH.
Qed.

Lemma StronglySorted_firstn {A} (R : A -> A -> Prop) (n : nat) (l : list A) :
  StronglySorted R l -> StronglySorted R (firstn n l).
Proof.
  revert l. induction n as [|n IH]; intros l H; [constructor|].
  destruct l as [|x l]; [constructor|].
  apply StronglySorted_inv in H as [H Hx]. simpl.
  constructor; [now apply IH|].
  apply Forall_forall. intros y Hy.
  apply (proj1 (Forall_forall _ _) Hx).
  rewrite <- (firstn_skipn n l). apply in_or_app. now left.
Qed.

Lemma StronglySorted_select (l : collection) :
  StronglySorted not_older l ->
  StronglySorted row_not_older (map Whitelist.select l).
Proof.
  induction 1 as [|x l Hl IH Hx]; simpl; constructor; [assumption|].
  apply Forall_forall. intros q Hq.
  apply in_map_iff in Hq as [y [<- Hy]].
  exact (proj1 (Forall_forall _ _) Hx y Hy).
Qed.

(** X11.  Every page that list returns is sorted by registeredAt,
    newest first. *)
Theorem list_page_sorted :
  forall (qp ql : option string) (db : collection),
    StronglySorted row_not_older
      (registrations_of (fst (respond (List qp ql) db))).
Proof.
  intros qp ql db. rewrite respond_list. cbn [fst].
  destruct (_ <? 0); [constructor|]. cbv zeta. cbn [registrations_of].
  unfold page_of. apply StronglySorted_select.
  destruct (_ =? 0); [|apply StronglySorted_firstn];
    apply StronglySorted_skipn, sort_desc_sorted.
Qed.

Lemma sort_desc_newest_last (db : collection) (d : Registration) :
  (forall x, In x db -> registeredAt x < registeredAt d) ->
  Whitelist.sort_desc (db ++ [d]) = d :: Whitelist.sort_desc db.
Proof.
  induction db as [|x db IH]; intros H; [reflexivity|].
  simpl. rewrite IH by (intros y Hy; apply H; now right). simpl.
  destruct (Z.leb_spec (registeredAt d) (registeredAt x)); [|reflexivity].
  specialize (H x (or_introl eq_refl)). lia.
Qed.

(** X13.  A registration newer than all stored ones is the first row
    of the list with default page and limit. *)
Theorem newest_registration_listed_first :
  forall (a : string) ip ua oid now (db : collection),
    isValidEthereumAddress a = true ->
    at_address (JS.toLowerCase a) db = [] ->
    (forall x, In x db -> registeredAt x < now) ->
    let db' := snd (respond (Register (JS.Str a) ip ua oid now) db) in
    exists rest,
      registrations_of (fst (respond (List None None) db')) =
      {| p_id := oid; p_address := JS.toLowerCase a; p_registeredAt := now |}
        :: rest.
Proof.
  intros a ip ua oid now db Ha Hnone Hnew db'.
  unfold db'. rewrite (register_creates a ip ua oid now db Ha Hnone).
  cbn [snd]. rewrite respond_list. cbn [fst]. cbv zeta.
  change (Api.list_skip None None) with 0.
  change (Api.list_limit None) with 50.
  cbn [Z.ltb Z.compare registrations_of]. unfold page_of.
  rewrite sort_desc_newest_last by exact Hnew.
  cbn -[Whitelist.sort_desc firstn]. simpl firstn. eexists. reflexivity.
Qed.

Lemma newest_registration_listed_first_witness :
  let a := "0xabcdef0123456789abcdef0123456789abcdef01" in
  let db := run [Register (JS.Str "0x00000000000000000000000000000000000000aa")
                   None None 1%N 1000] [] in
  exists rest,
    registrations_of
      (fst (respond (List None None)
              (snd (respond (Register (JS.Str a) None None 2%N 2000) db)))) =
    {| p_id := 2%N; p_address := JS.toLowerCase a; p_registeredAt := 2000 |}
      :: rest.
Proof.
  intros a db.
  apply (newest_registration_listed_first a None None 2%N 2000 db).
  - reflexivity.
  - reflexivity.
  - intros x [<- | []]. reflexivity.
Defined.

(** ** Stats *)

Lemma count_since_app (t : Z) (db : collection) (d : Registration) :
  count_since t (db ++ [d]) =
  count_since t db + (if t <=? registeredAt d then 1 else 0).
Proof.
  unfold count_since. rewrite filter_app, length_app. simpl.
  destruct (t <=? registeredAt d); simpl; lia.
Qed.

(** X12.  Stats read at the time of a successful registration counts
    it three times: total, today and lastWeek are each one more than
    before it. *)
Theorem register_then_stats :
  forall (a : string) ip ua oid tz now (db : collection)
         (total today lastWeek : Z),
    isValidEthereumAddress a = true ->
    at_address (JS.toLowerCase a) db = [] ->
    fst (respond (Stats tz now now) db) = StatsResult total today lastWeek ->
    fst (respond (Stats tz now now)
           (snd (respond (Register (JS.Str a) ip ua oid now) db)))
    = StatsResult (total + 1) (today + 1) (lastWeek + 1).
Proof.
  intros a ip ua oid tz now db total today lastWeek Ha Hnone.
  rewrite (register_creates a ip ua oid now db Ha Hnone). cbn [snd].
  rewrite !respond_stats. cbn [fst]. intros [= <- <- <-].
  rewrite !count_since_app, length_app. cbn [registeredAt length].
  pose proof (setHours_0_bounds tz now) as Hb.
  pose proof (setDate_minus_7_bounds tz now) as Hw.
  destruct (Z.leb_spec (setHours_0 tz now) now); [|lia].
  destruct (Z.leb_spec (setDate_minus_7 tz now) now);
    [|unfold msPerDay in Hw; lia].
  f_equal. lia.
Qed.

Lemma register_then_stats_witness :
  fst (respond (Stats UTC_zone 1000 1000)
         (snd (respond
                 (Register
                    (JS.Str "0xabcdef0123456789abcdef0123456789abcdef01")
                    None None 1%N 1000) [])))
  = StatsResult (0 + 1) (0 + 1) (0 + 1).
Proof.
  apply (register_then_stats "0xabcdef0123456789abcdef0123456789abcdef01"
           None None 1%N UTC_zone 1000 [] 0 0 0); reflexivity.
Defined.

(** ** Lenient numbers in the query *)

(** X14.  The query numbers are read leniently: white space before a
    decimal numeral and anything after it that does not start with a
    digit are ignored, so that the page or limit is the non-zero safe
    integer that the numeral denotes. *)
Theorem list_reads_leading_numeral :
  forall (n : Z) (w t : string),
    n <> 0 ->
    JS.isSafeInteger n ->
    all_chars JS.is_white_space w = true ->
    no_digit_ahead t = true ->
    JS.parseInt (Some (w ++ decimal n ++ t)%string) = Some n /\
    Api.list_page (Some (w ++ decimal n ++ t)%string) = n /\
    Api.list_limit (Some (w ++ decimal n ++ t)%string) = n.
Proof.
  intros n w t Hn _ Hw Ht.
  assert (JS.parseInt (Some (w ++ decimal n ++ t)%string) = Some n) as E
      by (rewrite parseInt_white_space by exact Hw;
          now apply parseInt_decimal_suffix).
  unfold Api.list_page, Api.list_limit. rewrite E. cbn [JS.or_default].
  apply Z.eqb_neq in Hn. now rewrite Hn.
Qed.

Lemma list_reads_leading_numeral_witness :
  JS.parseInt (Some ("  " ++ decimal 25 ++ "abc")%string) = Some 25 /\
  Api.list_page (Some ("  " ++ decimal 25 ++ "abc")%string) = 25 /\
  Api.list_limit (Some ("  " ++ decimal 25 ++ "abc")%string) = 25.
Proof.
  apply (list_reads_leading_numeral 25 "  " "abc");
    [discriminate | | reflexivity | reflexivity].
  unfold JS.isSafeInteger, JS.MAX_SAFE_INTEGER. lia.
Defined.

(** X15.  A page or limit that, after white space, starts neither
    with a decimal digit nor with a sign is treated as absent: the
    answer is the one given without that parameter. *)
Theorem list_defaults_without_numeral :
  forall (s : string) (ql : option string) (db : collection),
    match JS.trimStart s with
    | EmptyString => True
    | String c _ =>
        JS.in_range "0" "9" c = false /\ c <> "-"%char /\ c <> "+"%char
    end ->
    Api.list_page (Some s) = 1 /\ Api.list_limit (Some s) = 50 /\
    respond (List (Some s) ql) db = respond (List None ql) db /\
    respond (List ql (Some s)) db = respond (List ql None) db.
Proof.
  intros s ql db H. pose proof (parseInt_no_numeral s H) as E.
  assert (Api.list_page (Some s) = 1) as Ep
      by (unfold Api.list_page; now rewrite E).
  assert (Api.list_limit (Some s) = 50) as El
      by (unfold Api.list_limit; now rewrite E).
  split; [exact Ep|]. split; [exact El|].
  rewrite !respond_list. unfold Api.list_skip. rewrite Ep, El.
  split; reflexivity.
Qed.

Lemma list_defaults_without_numeral_witness :
  Api.list_page (Some "first") = 1 /\ Api.list_limit (Some "first") = 50 /\
  respond (List (Some "first") (Some "10")) []
  = respond (List None (Some "10")) [] /\
  respond (List (Some "10") (Some "first")) []
  = respond (List (Some "10") None) [].
Proof.
  apply (list_defaults_without_numeral "first" (Some "10") []).
  simpl. repeat split; discriminate.
Defined.

(** ** The setters of the schema *)

Lemma trimStart_toLowerCase (s : string) :
  JS.trimStart (JS.toLowerCase s) = JS.toLowerCase (JS.trimStart s).
Proof.
  induction s as [|c s IH]; simpl; [reflexivity|].
  rewrite lower_char_white_space. now destruct (JS.is_white_space c).
Qed.

Lemma trimEnd_toLowerCase (s : string) :
  JS.trimEnd (JS.toLowerCase s) = JS.toLowerCase (JS.trimEnd s).
Proof.
  induction s as [|c s IH]; simpl; [reflexivity|].
  rewrite IH, lower_char_white_space.
  destruct (JS.trimEnd s); simpl; [|reflexivity].
  now destruct (JS.is_white_space c).
Qed.

Lemma trim_toLowerCase (s : string) :
  JS.trim (JS.toLowerCase s) = JS.toLowerCase (JS.trim s).
Proof.
  unfold JS.trim. now rewrite trimStart_toLowerCase, trimEnd_toLowerCase.
Qed.

Lemma trimEnd_idem (s : string) : JS.trimEnd (JS.trimEnd s) = JS.trimEnd s.
Proof.
  induction s as [|c s IH]; simpl; [reflexivity|].
  destruct (JS.trimEnd s) as [|c' r] eqn:E.
  - destruct (JS.is_white_space c) eqn:Hc; simpl; [reflexivity|].
    now rewrite Hc.
  - change (JS.trimEnd (String c (String c' r)))
      with (match JS.trimEnd (String c' r) with
            | EmptyString => if JS.is_white_space c then EmptyString
                             else String c EmptyString
            | t => String c t
            end).
    now rewrite IH.
Qed.

Lemma trimStart_trimEnd_trimStart (s : string) :
  JS.trimStart (JS.trimEnd (JS.trimStart s)) = JS.trimEnd (JS.trimStart s).
Proof.
  induction s as [|c s IH]; simpl; [reflexivity|].
  destruct (JS.is_white_space c) eqn:Hc; [exact IH|].
  simpl. destruct (JS.trimEnd s); rewrite ?Hc; simpl; now rewrite Hc.
Qed.

Lemma trim_idem (s : string) : JS.trim (JS.trim s) = JS.trim s.
Proof.
  unfold JS.trim. now rewrite trimStart_trimEnd_trimStart, trimEnd_idem.
Qed.

(** X16.  The setters of the address path are idempotent and commute,
    so that looking up the stored address of a document built from any
    string finds a document with that address. *)
Theorem set_address_idempotent :
  forall (s : string),
    Schema.set_address (Schema.set_address s) = Schema.set_address s /\
    JS.trim (JS.toLowerCase s) = JS.toLowerCase (JS.trim s) /\
    (forall oid now ip ua (db : collection),
       let doc := Whitelist.new oid now s ip ua in
       exists e,
         Whitelist.findOne (address doc) (db ++ [doc])
         = (Return (Some e), db ++ [doc]) /\
         address e = address doc).
Proof.
  intros s.
  assert (Schema.set_address (Schema.set_address s) = Schema.set_address s)
    as Hid.
  { unfold Schema.set_address.
    now rewrite (trim_toLowerCase (JS.trim _)), trim_idem,
      <- trim_toLowerCase, toLowerCase_idem. }
  split; [exact Hid|]. split; [apply trim_toLowerCase|].
  intros oid now ip ua db doc.
  assert (Whitelist.by_address (address doc) doc = true) as Hself
      by (unfold Whitelist.by_address; cbn [doc Whitelist.new address];
          rewrite Hid; apply String.eqb_refl).
  unfold Whitelist.findOne.
  destruct (find (Whitelist.by_address (address doc)) (db ++ [doc]))
    as [e|] eqn:Hf.
  - exists e. split; [reflexivity|].
    apply find_some in Hf as [_ He]. unfold Whitelist.by_address in He.
    apply String.eqb_eq in He. rewrite He.
    cbn [doc Whitelist.new address]. exact Hid.
  - exfalso.
    assert (In doc (db ++ [doc])) as Hin
        by (apply in_or_app; right; now left).
    apply (find_none _ _ Hf) in Hin. congruence.
Qed.

(** ** Origins *)

Lemma indexOf_from_spec (x : string) (l : list string) (i : Z) :
  (indexOf_from i l x = -1 /\ ~ In x l) \/
  (i <= indexOf_from i l x < i + Z.of_nat (length l) /\
   nth_error l (Z.to_nat (indexOf_from i l x - i)) = Some x /\
   ~ In x (firstn (Z.to_nat (indexOf_from i l x - i)) l)) \/
  i < 0.
Proof.
  revert i. induction l as [|y l IH]; intros i; [left; simpl; tauto|].
  destruct (Z.ltb_spec i 0) as [Hi|Hi]; [now right; right|].
  cbn [indexOf_from]. destruct (String.eqb_spec y x) as [->|Hne].
  - right. left. rewrite Z.sub_diag. cbn [length]. simpl. split; [lia|].
    tauto.
  - destruct (IH (i + 1)) as [[E Hn] | [[Hb [Hnth Hfirst]] | Hneg]];
      [| |lia].
    + left. split; [exact E|]. simpl. tauto.
    + right. left. cbn [length]. split; [lia|].
      replace (Z.to_nat (indexOf_from (i + 1) l x - i))
        with (S (Z.to_nat (indexOf_from (i + 1) l x - (i + 1)))) by lia.
      simpl. split; [exact Hnth|]. tauto.
Qed.

Lemma indexOf_not_found (x : string) (l : list string) :
  indexOf l x = -1 <-> ~ In x l.
Proof.
  unfold indexOf.
  destruct (indexOf_from_spec x l 0) as [[E Hn] | [[Hb [Hnth _]] | Hneg]];
    [tauto | | lia].
  split; [lia|]. intros Hn. exfalso. apply Hn.
  now apply nth_error_In in Hnth.
Qed.

(** X17.  An origin is allowed exactly when the request has no Origin
    header, or an empty one, or the origin is, character for character,
    one of the six allowed origins. *)
Theorem cors_origin_allowed :
  forall (origin : option string),
    cors_origin origin = Allowed <->
    origin = None \/ origin = Some "" \/
    exists s, origin = Some s /\ In s allowedOrigins.
Proof.
  intros [s|]; [|simpl; split; [auto | reflexivity]].
  unfold cors_origin. cbn [JS.truthy string_of].
  destruct (String.eqb_spec s "") as [E|Hs]; cbn [negb].
  - subst s. split; [auto | reflexivity].
  - destruct (Z.eqb_spec (indexOf allowedOrigins s) (-1)) as [E|E];
      cbn [negb].
    + apply indexOf_not_found in E. split; [discriminate|].
      intros [H | [H | [s' [H Hin]]]];
        [discriminate | congruence | injection H as <-; contradiction].
    + split; [intros _ | reflexivity]. right. right. exists s.
      split; [reflexivity|].
      destruct (in_dec string_dec s allowedOrigins) as [Hin|Hn];
        [exact Hin|].
      now apply indexOf_not_found in Hn.
Qed.

(** X19.  The page and the limit that list computes are never zero,
    so that totalPages never divides by zero; the count of a page is
    the length of its rows, at most the absolute value of the limit and
    at most the total. *)
Theorem list_limit_never_zero :
  forall (qp ql : option string) (db : collection),
    Api.list_page qp <> 0 /\ Api.list_limit ql <> 0 /\
    (forall count total page totalPages regs,
       fst (respond (List qp ql) db)
       = ListResult count total page totalPages regs ->
       count = Z.of_nat (length regs) /\
       0 <= count <= Z.abs (Api.list_limit ql) /\ count <= total).
Proof.
  intros qp ql db.
  assert (forall q d, d <> 0 -> JS.or_default (JS.parseInt q) d <> 0) as Hnz.
  { intros q d Hd. unfold JS.or_default.
    destruct (JS.parseInt q) as [z|]; [|exact Hd].
    destruct (Z.eqb_spec z 0); assumption. }
  split; [apply Hnz; discriminate|].
  assert (Api.list_limit ql <> 0) as Hl by (apply Hnz; discriminate).
  split; [exact Hl|].
  intros count total page totalPages regs. rewrite respond_list. cbn [fst].
  destruct (_ <? 0); [discriminate|]. cbv zeta. intros [= <- <- _ _ <-].
  split; [reflexivity|]. unfold page_of.
  apply Z.eqb_neq in Hl. rewrite Hl.
  rewrite length_map, length_firstn, length_skipn, sort_desc_length. lia.
Qed.

Lemma list_limit_never_zero_witness :
  let row := {| p_id := 2%N; p_address := "0y"; p_registeredAt := 2 |} in
  Api.list_page (Some "0") <> 0 /\ Api.list_limit (Some "0") <> 0 /\
  (1 = Z.of_nat (length [row]) /\
   0 <= 1 <= Z.abs (Api.list_limit (Some "-1")) /\ 1 <= 2).
Proof.
  intros row.
  destruct (list_limit_never_zero (Some "0") (Some "0") []) as [H1 [H2 _]].
  split; [exact H1|]. split; [exact H2|].
  apply (proj2 (proj2 (list_limit_never_zero None (Some "-1")
                         [ {| _id := 1%N;
                              address := "0x";
                              registeredAt := 1;
                              ipAddress := None;
                              userAgent := None |};
                           {| _id := 2%N;
                              address := "0y";
                              registeredAt := 2;
                              ipAddress := None;
                              userAgent := None |} ]))
           1 2 1 (-2) [row]).
  reflexivity.
Defined.

Lemma cors_origin_allowed_witness :
  cors_origin (Some "https://rigworkz.xyz") = Allowed /\
  cors_origin None = Allowed /\
  cors_origin (Some "https://rigworkz.xyz/") <> Allowed.
Proof.
  split; [|split].
  - apply cors_origin_allowed. right. right.
    exists "https://rigworkz.xyz". split; [reflexivity|]. simpl. tauto.
  - apply cors_origin_allowed. now left.
  - intros H. apply cors_origin_allowed in H.
    destruct H as [H | [H | [s [H Hin]]]]; try discriminate.
    injection H as <-. simpl in Hin.
    repeat (destruct Hin as [Hin | Hin]; [discriminate Hin|]).
    exact Hin.
Defined.
